(** * Chat core of the classifieds backend: connection relay and chat routes

    Shallow embedding of [websocket.ts] (the live-connection relay, with its
    process-wide [clients] map) and of [routes/chat.ts] (get-or-create
    conversation, list conversations, read messages, send message), followed
    by the favourites routes and the ad routes that read or delete one ad.

    Every [await prisma.*] call is one call on the store.  A call takes a
    [StoreCall] describing what the environment decides for it (whether the
    store can be reached, the identifier and clock reading it hands out) and
    either resolves or rejects; a rejection is the exception caught by the
    surrounding [try]/[catch]. *)

From stdpp Require Import gmap strings list fin_maps sorting.

Local Open Scope Z_scope.

(** ** JSON values, as produced by [JSON.parse] and [express.json()] *)

(** Numbers carry an integer: the code only tests them for truthiness and
    hands them to the store, which refuses any number where it wants text. *)
#[warnings="-register-all"] Inductive json : Type :=
| JNull
| JBool (b : bool)
| JNumber (n : Z)
| JString (s : string)
| JArray (items : list json)
| JObject (fields : list (string * json)).

(** [lookup_field k fs] is the own property [k] of a parsed object. *)
Fixpoint lookup_field (k : string) (fs : list (string * json)) : option json :=
  match fs with
  | [] => None
  | (k', v) :: fs' => if decide (k' = k) then Some v else lookup_field k fs'
  end.

(** [v.k] for a value that is not [null]; [None] is [undefined].  None of the
    property names read by the code exists on a boolean, number, string or
    array. *)
Definition prop (k : string) (v : json) : option json :=
  match v with
  | JObject fs => lookup_field k fs
  | _ => None
  end.

(** JavaScript truthiness; [None] is [undefined]. *)
Definition truthy (v : option json) : bool :=
  match v with
  | None => false
  | Some JNull => false
  | Some (JBool b) => b
  | Some (JNumber n) => negb (n =? 0)
  | Some (JString s) => negb (String.eqb s "")
  | Some (JArray _) => true
  | Some (JObject _) => true
  end.

(** ** The relational store *)

Record User := {
  u_id : string;
  u_name : string;
  u_profilePic : option string;
}.

Record Conversation := {
  c_id : string;
  user1Id : string;
  user2Id : string;
  updatedAt : Z;
}.

Record Message := {
  m_id : string;
  content : string;
  senderId : string;
  receiverId : string;
  conversationId : string;
  createdAt : Z;
}.

(** A message row together with [include: { sender: { select: id, name,
    profilePic } }]. *)
Record MessageWithSender := {
  row : Message;
  sender : option User;
}.

Record DB := {
  users : list User;
  conversations : list Conversation;
  messages : list Message;
}.

#[global] Instance User_eq_dec : EqDecision User.
Proof. solve_decision. Defined.
#[global] Instance Conversation_eq_dec : EqDecision Conversation.
Proof. solve_decision. Defined.
#[global] Instance Message_eq_dec : EqDecision Message.
Proof. solve_decision. Defined.
#[global] Instance MessageWithSender_eq_dec : EqDecision MessageWithSender.
Proof. solve_decision. Defined.

Inductive PrismaError :=
| ValidationError
| ForeignKeyViolation
| UniqueViolation
| RecordNotFound
| StoreUnreachable.

Inductive Result (A : Type) :=
| Resolved (a : A)
| Rejected (e : PrismaError).
Arguments Resolved {A} a.
Arguments Rejected {A} e.

(** What the environment decides for one call on the store. *)
Record StoreCall := {
  unreachable : bool;  (* the call fails whatever it asks for *)
  new_id : string;     (* identifier generated for a created row *)
  now : Z;             (* clock reading taken for the call *)
}.

Definition find_user (uid : string) (d : DB) : option User :=
  find (λ u, bool_decide (u_id u = uid)) (users d).

Definition find_conversation (cid : string) (d : DB) : option Conversation :=
  find (λ c, bool_decide (c_id c = cid)) (conversations d).

Definition find_pair (u1 u2 : string) (d : DB) : option Conversation :=
  find (λ c, bool_decide (user1Id c = u1) && bool_decide (user2Id c = u2))
       (conversations d).

Definition find_message (mid : string) (d : DB) : option Message :=
  find (λ m, bool_decide (m_id m = mid)) (messages d).

Definition with_sender (d : DB) (m : Message) : MessageWithSender :=
  {| row := m; sender := find_user (senderId m) d |}.

(** A required text column accepts a string and nothing else. *)
Definition as_text (v : option json) : option string :=
  match v with
  | Some (JString s) => Some s
  | _ => None
  end.

Section Store.

(** Modelled from the spec: the store schema ([prisma/schema.prisma] is not
    among the sources).  A message has a required text content and required
    sender, receiver and conversation identifiers; sender and conversation
    are relations (the code includes [sender] of a message and [messages] of
    a conversation), a conversation's [user1] and [user2] are relations, and
    the pair (user1Id, user2Id) is a unique key (the code looks a
    conversation up by [user1Id_user2Id]).  Whether the receiver column is a
    relation too is left open. *)
Variable receiver_is_relation : bool.

(** [prisma.conversation.findUnique({ where: { id } })] *)
Definition conversation_findUnique (e : StoreCall) (cid : option json) (d : DB)
  : Result (option Conversation) :=
  match as_text cid with
  | None => Rejected ValidationError
  | Some cid =>
      if unreachable e then Rejected StoreUnreachable
      else Resolved (find_conversation cid d)
  end.

(** [prisma.conversation.findUnique({ where: { user1Id_user2Id } })] *)
Definition conversation_findPair (e : StoreCall) (u1 u2 : string) (d : DB)
  : Result (option Conversation) :=
  if unreachable e then Rejected StoreUnreachable
  else Resolved (find_pair u1 u2 d).

(** [prisma.conversation.create({ data: { user1Id, user2Id } })] *)
Definition conversation_create (e : StoreCall) (u1 u2 : string) (d : DB)
  : Result (Conversation * DB) :=
  if unreachable e then Rejected StoreUnreachable
  else match find_user u1 d, find_user u2 d with
  | Some _, Some _ =>
      match find_pair u1 u2 d, find_conversation (new_id e) d with
      | None, None =>
          let c := {| c_id := new_id e; user1Id := u1; user2Id := u2;
                      updatedAt := now e |} in
          Resolved (c, {| users := users d;
                          conversations := conversations d ++ [c];
                          messages := messages d |})
      | _, _ => Rejected UniqueViolation
      end
  | _, _ => Rejected ForeignKeyViolation
  end.

(** [prisma.conversation.update({ where: { id }, data: { updatedAt } })] *)
Definition touch (cid : string) (t : Z) (c : Conversation) : Conversation :=
  if decide (c_id c = cid)
  then {| c_id := c_id c; user1Id := user1Id c; user2Id := user2Id c;
          updatedAt := t |}
  else c.

Definition conversation_update (e : StoreCall) (cid : string) (d : DB)
  : Result DB :=
  if unreachable e then Rejected StoreUnreachable
  else match find_conversation cid d with
  | None => Rejected RecordNotFound
  | Some _ =>
      Resolved {| users := users d;
                  conversations := touch cid (now e) <$> conversations d;
                  messages := messages d |}
  end.

(** [prisma.message.create({ data: { content, senderId, receiverId,
    conversationId }, include: { sender } })] *)
Definition message_create (e : StoreCall)
    (content_ : option json) (senderId_ : option string)
    (receiverId_ conversationId_ : option json) (d : DB)
  : Result (MessageWithSender * DB) :=
  match as_text content_, senderId_, as_text receiverId_, as_text conversationId_ with
  | Some txt, Some s, Some r, Some cid =>
      if unreachable e then Rejected StoreUnreachable
      else if negb (bool_decide (is_Some (find_user s d))
                    && bool_decide (is_Some (find_conversation cid d))
                    && (negb receiver_is_relation
                        || bool_decide (is_Some (find_user r d))))
      then Rejected ForeignKeyViolation
      else match find_message (new_id e) d with
      | Some _ => Rejected UniqueViolation
      | None =>
          let m := {| m_id := new_id e; content := txt; senderId := s;
                      receiverId := r; conversationId := cid;
                      createdAt := now e |} in
          let d' := {| users := users d;
                       conversations := conversations d;
                       messages := messages d ++ [m] |} in
          Resolved (with_sender d' m, d')
      end
  | _, _, _, _ => Rejected ValidationError
  end.

(** [prisma.message.findMany({ where: { conversationId },
    orderBy: { createdAt: 'asc' }, include: { sender } })] *)
Definition not_after (a b : Message) : Prop := createdAt a ≤ createdAt b.

#[global] Instance not_after_dec : RelDecision not_after.
Proof. intros a b. unfold not_after. apply _. Defined.

Definition messages_of (cid : string) (d : DB) : list Message :=
  filter (λ m, conversationId m = cid) (messages d).

Definition message_findMany (e : StoreCall) (cid : string) (d : DB)
  : Result (list MessageWithSender) :=
  if unreachable e then Rejected StoreUnreachable
  else Resolved (with_sender d <$>
                 merge_sort not_after (messages_of cid d)).

End Store.

(** ** Live connections and the process state *)

Inductive ReadyState := CONNECTING | OPEN | CLOSING | CLOSED.

#[global] Instance ReadyState_eq_dec : EqDecision ReadyState.
Proof. solve_decision. Defined.

(** Events the server writes on a channel ([ws.send(JSON.stringify(...))]). *)
Inductive Outbound :=
| new_message (message : MessageWithSender)
| message_sent (message : MessageWithSender)
| error (message : string).

#[global] Instance Outbound_eq_dec : EqDecision Outbound.
Proof. solve_decision. Defined.

(** A connection handle is the identity of the [ws] object. *)
Definition Handle := nat.

(** [AuthenticatedWebSocket]: the optional [userId], the ready state, whether
    the ['message'] and ['close'] listeners have been attached (they are
    attached together), what has been written on the channel, and the close
    frame passed to [ws.close]. *)
Record Socket := {
  userId : option string;
  readyState : ReadyState;
  listening : bool;
  outbox : list Outbound;
  closeFrame : option (Z * string);
}.

Record State := {
  clients : gmap string Handle;   (* const clients = new Map<string, ws>() *)
  sockets : gmap Handle Socket;
  db : DB;
}.

Definition with_clients (m : gmap string Handle) (st : State) : State :=
  {| clients := m; sockets := sockets st; db := db st |}.

Definition with_sockets (m : gmap Handle Socket) (st : State) : State :=
  {| clients := clients st; sockets := m; db := db st |}.

Definition with_db (d : DB) (st : State) : State :=
  {| clients := clients st; sockets := sockets st; db := d |}.

(** The socket the server hands to the ['connection'] listener. *)
Definition accepted : Socket :=
  {| userId := None; readyState := OPEN; listening := false;
     outbox := []; closeFrame := None |}.

(** [ws.send(x)]: written when the channel is open, dropped once it is
    closing or closed (a socket accepted by the server is never
    [CONNECTING]). *)
Definition socket_send (x : Outbound) (s : Socket) : Socket :=
  if decide (readyState s = OPEN)
  then {| userId := userId s; readyState := readyState s;
          listening := listening s; outbox := outbox s ++ [x];
          closeFrame := closeFrame s |}
  else s.

Definition ws_send (ws : Handle) (x : Outbound) (st : State) : State :=
  with_sockets (alter (socket_send x) ws (sockets st)) st.

(** [ws.close(code, reason)] starts the closing handshake. *)
Definition socket_close (code : Z) (reason : string) (s : Socket) : Socket :=
  if decide (readyState s = OPEN)
  then {| userId := userId s; readyState := CLOSING;
          listening := listening s; outbox := outbox s;
          closeFrame := Some (code, reason) |}
  else s.

Definition ws_close (ws : Handle) (code : Z) (reason : string) (st : State) : State :=
  with_sockets (alter (socket_close code reason) ws (sockets st)) st.

(** The peer's close frame arrives: the library answers it and the socket is
    [CLOSING] until its ['close'] event. *)
Definition socket_closing (s : Socket) : Socket :=
  if decide (readyState s = OPEN)
  then {| userId := userId s; readyState := CLOSING;
          listening := listening s; outbox := outbox s;
          closeFrame := closeFrame s |}
  else s.

Definition ws_closing (ws : Handle) (st : State) : State :=
  with_sockets (alter socket_closing ws (sockets st)) st.

Definition is_open (ws : Handle) (st : State) : bool :=
  match sockets st !! ws with
  | Some s => bool_decide (readyState s = OPEN)
  | None => false
  end.

(** ** Connection Registry: the three uses of [clients] *)

Definition register (uid : string) (ws : Handle) (st : State) : State :=
  with_clients (<[uid := ws]> (clients st)) st.

Definition lookup (uid : string) (st : State) : option Handle :=
  clients st !! uid.

Definition unregister (uid : string) (st : State) : State :=
  with_clients (delete uid (clients st)) st.

(** ** HTTP responses *)

Inductive Response (A : Type) :=
| Json (status : Z) (body : A)
| Failure (status : Z) (error : string).
Arguments Json {A} status body.
Arguments Failure {A} status error.

(** [[a, b].sort()] on two strings: the default comparison orders by code
    units and swaps exactly when the second is smaller than the first. *)
Definition sort_pair (a b : string) : string * string :=
  if String.ltb b a then (b, a) else (a, b).

Definition not_participant (uid : string) (c : Conversation) : bool :=
  negb (bool_decide (user1Id c = uid)) && negb (bool_decide (user2Id c = uid)).

(** ** The relay: [setupWebSocket] *)

Definition failed_to_process : Outbound := error "Failed to process message".

(** An [async] listener suspended at one of its two [await]s. *)
Inductive Task :=
| AwaitCreate (ws : Handle) (senderId_ : option string)
              (conversationId_ content_ receiverId_ : option json)
| AwaitUpdate (ws : Handle) (savedMessage : MessageWithSender).

(** [message.type === 'chat_message'] *)
Definition is_chat_message (type : option json) : bool :=
  match type with
  | Some (JString s) => String.eqb s "chat_message"
  | _ => false
  end.

(** What [new URL(req.url!, `http://${req.headers.host}`)] followed by
    [url.searchParams.get('token')] makes of an upgrade request.  The
    constructor throws for a request target that is no URL reference against
    that base, such as [//]; otherwise the query holds a token or none. *)
Inductive Target :=
| InvalidURL
| Query (token : option string).

Section Relay.

Variable receiver_is_relation : bool.

(** [jwt.verify(token, JWT_SECRET)]: the [userId] of the decoded payload, or
    [None] when verification throws. *)
Variable jwt_verify : string → option string.

(** [!token] for [token : string | null]. *)
Definition no_token (token : option string) : bool :=
  match token with
  | None => true
  | Some t => String.eqb t ""
  end.

(** [ws.userId = decoded.userId] followed by the two [ws.on] calls. *)
Definition authenticated (uid : string) (s : Socket) : Socket :=
  {| userId := Some uid; readyState := readyState s; listening := true;
     outbox := outbox s; closeFrame := closeFrame s |}.

(** [wss.on('connection', async (ws, req) => ...)] from the token test on;
    [token] is [url.searchParams.get('token')]. *)
Definition on_connection (ws : Handle) (token : option string) (st : State) : State :=
  let st := with_sockets (<[ws := accepted]> (sockets st)) st in
  if no_token token then ws_close ws 1008 "No token provided" st
  else match jwt_verify (default "" token) with
  | Some uid =>
      register uid ws (with_sockets (alter (authenticated uid) ws (sockets st)) st)
  | None => ws_close ws 1008 "Invalid token" st
  end.

(** [wss.on('connection', async (ws, req) => ...)] as a whole.  The URL is
    built first, before the token test and outside the [try]: when that
    throws, the listener ends there, having closed nothing, registered
    nothing and attached no listener to the socket it was handed. *)
Definition connection_listener (ws : Handle) (target : Target) (st : State)
  : State :=
  match target with
  | InvalidURL => with_sockets (<[ws := accepted]> (sockets st)) st
  | Query token => on_connection ws token st
  end.

(** [ws.on('message', async (data) => ...)] up to its first [await].
    [data] is [None] when [JSON.parse] throws; reading [.type] of [null]
    throws as well. *)
Definition on_message (ws : Handle) (data : option json) (st : State)
  : State * option Task :=
  match data with
  | None => (ws_send ws failed_to_process st, None)
  | Some JNull => (ws_send ws failed_to_process st, None)
  | Some message =>
      if is_chat_message (prop "type" message)
      then (st, Some (AwaitCreate ws
                        (s ← sockets st !! ws; userId s)
                        (prop "conversationId" message)
                        (prop "content" message)
                        (prop "receiverId" message)))
      else (st, None)
  end.

(** The listener resumes when the awaited call settles. *)
Definition resume (t : Task) (e : StoreCall) (st : State) : State * option Task :=
  match t with
  | AwaitCreate ws s cid txt rid =>
      match message_create receiver_is_relation e txt s rid cid (db st) with
      | Rejected _ => (ws_send ws failed_to_process st, None)
      | Resolved (savedMessage, d) =>
          (with_db d st, Some (AwaitUpdate ws savedMessage))
      end
  | AwaitUpdate ws savedMessage =>
      match conversation_update e (conversationId (row savedMessage)) (db st) with
      | Rejected _ => (ws_send ws failed_to_process st, None)
      | Resolved d =>
          let st := with_db d st in
          let st :=
            match lookup (receiverId (row savedMessage)) st with
            | Some receiverWs =>
                if is_open receiverWs st
                then ws_send receiverWs (new_message savedMessage) st
                else st
            | None => st
            end in
          (ws_send ws (message_sent savedMessage) st, None)
      end
  end.

(** [ws.on('close', () => ...)]; the socket is [CLOSED] when the event is
    emitted. *)
Definition socket_closed (s : Socket) : Socket :=
  {| userId := userId s; readyState := CLOSED; listening := listening s;
     outbox := outbox s; closeFrame := closeFrame s |}.

Definition on_close (ws : Handle) (st : State) : State :=
  match sockets st !! ws with
  | None => st
  | Some s =>
      let st := with_sockets (<[ws := socket_closed s]> (sockets st)) st in
      if listening s then
        match userId s with
        | Some uid => if String.eqb uid "" then st else unregister uid st
        | None => st
        end
      else st
  end.

(** One inbound event processed with nothing else in between: the listener
    runs from the frame to its end, [e1] settling [message.create] and [e2]
    settling [conversation.update]. *)
Definition process (ws : Handle) (data : option json) (e1 e2 : StoreCall)
    (st : State) : State :=
  match on_message ws data st with
  | (st, None) => st
  | (st, Some t) =>
      match resume t e1 st with
      | (st, None) => st
      | (st, Some t) => (resume t e2 st).1
      end
  end.

(** ** The chat routes: [routes/chat.ts]

    [uid] is [req.userId], set by the [authenticateToken] middleware. *)

(** [router.post('/conversation', ...)].  A truthy [otherUserId] that is not
    a string is refused by the store's validation wherever [sort] puts it. *)
Definition post_conversation (uid : string) (otherUserId : option json)
    (e1 e2 : StoreCall) (st : State) : Response Conversation * State :=
  if negb (truthy otherUserId)
  then (Failure 400 "Other user ID is required", st)
  else match as_text otherUserId with
  | None => (Failure 500 "Failed to get conversation", st)
  | Some other =>
      let '(user1Id, user2Id) := sort_pair uid other in
      match conversation_findPair e1 user1Id user2Id (db st) with
      | Rejected _ => (Failure 500 "Failed to get conversation", st)
      | Resolved (Some conversation) => (Json 200 conversation, st)
      | Resolved None =>
          match conversation_create e2 user1Id user2Id (db st) with
          | Rejected _ => (Failure 500 "Failed to get conversation", st)
          | Resolved (conversation, d) => (Json 200 conversation, with_db d st)
          end
      end
  end.

(** [router.get('/messages/:conversationId', ...)] *)
Definition get_messages (uid : string) (cid : string) (e1 e2 : StoreCall)
    (st : State) : Response (list MessageWithSender) * State :=
  match conversation_findUnique e1 (Some (JString cid)) (db st) with
  | Rejected _ => (Failure 500 "Failed to fetch messages", st)
  | Resolved None => (Failure 404 "Conversation not found", st)
  | Resolved (Some conversation) =>
      if not_participant uid conversation
      then (Failure 403 "Unauthorized", st)
      else match message_findMany e2 cid (db st) with
      | Rejected _ => (Failure 500 "Failed to fetch messages", st)
      | Resolved messages => (Json 200 messages, st)
      end
  end.

(** [router.post('/message', ...)] *)
Definition post_message (uid : string)
    (conversationId_ content_ receiverId_ : option json)
    (e1 e2 e3 : StoreCall) (st : State) : Response MessageWithSender * State :=
  if negb (truthy conversationId_) || negb (truthy content_)
     || negb (truthy receiverId_)
  then (Failure 400 "Missing required fields", st)
  else match conversation_findUnique e1 conversationId_ (db st) with
  | Rejected _ => (Failure 500 "Failed to send message", st)
  | Resolved None => (Failure 404 "Conversation not found", st)
  | Resolved (Some conversation) =>
      if not_participant uid conversation
      then (Failure 403 "Unauthorized", st)
      else match message_create receiver_is_relation e2 content_ (Some uid)
                                receiverId_ conversationId_ (db st) with
      | Rejected _ => (Failure 500 "Failed to send message", st)
      | Resolved (message, d) =>
          match conversation_update e3 (conversationId (row message)) d with
          | Rejected _ => (Failure 500 "Failed to send message", with_db d st)
          | Resolved d => (Json 201 message, with_db d st)
          end
      end
  end.

(** ** The server as a transition system

    Listeners suspended at an [await] wait in [pending]; nothing makes a
    later frame wait for them.  [Connection] is a handshake whose request
    target parsed, [BadTarget] one whose target did not; [PeerClosing] is
    the arrival of the peer's close frame, [Close] the socket's ['close']
    event.  The library delivers no frame after the peer's close frame, so
    the system allows more runs than the library, never fewer. *)
Record Server := {
  state : State;
  pending : list Task;
}.

Inductive Event :=
| Connection (ws : Handle) (token : option string)
| Inbound (ws : Handle) (data : option json)
| Close (ws : Handle)
| Settle (i : nat) (e : StoreCall)
| PostConversation (uid : string) (otherUserId : option json) (e1 e2 : StoreCall)
| GetMessages (uid cid : string) (e1 e2 : StoreCall)
| PostMessage (uid : string) (conversationId_ content_ receiverId_ : option json)
              (e1 e2 e3 : StoreCall)
| BadTarget (ws : Handle)
| PeerClosing (ws : Handle).

(** A frame reaches the ['message'] listener of a socket that has one and is
    not closed yet. *)
Definition hears (ws : Handle) (st : State) : bool :=
  match sockets st !! ws with
  | Some s => listening s && negb (bool_decide (readyState s = CLOSED))
  | None => false
  end.

Definition spawn (r : State * option Task) (rest : list Task) : Server :=
  {| state := r.1; pending := rest ++ option_list r.2 |}.

Definition step (sv : Server) (ev : Event) : Server :=
  match ev with
  | Connection ws token =>
      {| state := on_connection ws token (state sv); pending := pending sv |}
  | Inbound ws data =>
      if hears ws (state sv)
      then spawn (on_message ws data (state sv)) (pending sv)
      else sv
  | Close ws =>
      {| state := on_close ws (state sv); pending := pending sv |}
  | Settle i e =>
      match pending sv !! i with
      | Some t => spawn (resume t e (state sv)) (delete i (pending sv))
      | None => sv
      end
  | PostConversation uid other e1 e2 =>
      {| state := (post_conversation uid other e1 e2 (state sv)).2;
         pending := pending sv |}
  | GetMessages uid cid e1 e2 =>
      {| state := (get_messages uid cid e1 e2 (state sv)).2;
         pending := pending sv |}
  | PostMessage uid cid txt rid e1 e2 e3 =>
      {| state := (post_message uid cid txt rid e1 e2 e3 (state sv)).2;
         pending := pending sv |}
  | BadTarget ws =>
      {| state := connection_listener ws InvalidURL (state sv);
         pending := pending sv |}
  | PeerClosing ws =>
      {| state := ws_closing ws (state sv); pending := pending sv |}
  end.

Definition run (sv : Server) (evs : list Event) : Server :=
  foldl step sv evs.

(** The connection is in the relay's [Active] state: authenticated, its
    listeners attached, its channel open. *)
Definition Active (ws : Handle) (uid : string) (st : State) : Prop :=
  ∃ s, sockets st !! ws = Some s ∧ userId s = Some uid
       ∧ listening s = true ∧ readyState s = OPEN.

End Relay.

(** ** Observations used to state the properties *)

(** What has been written on a channel so far. *)
Definition outbox_of (ws : Handle) (st : State) : list Outbound :=
  match sockets st !! ws with
  | Some s => outbox s
  | None => []
  end.

(** What a channel received during a transition from [st] to [st']. *)
Definition delivered (ws : Handle) (st st' : State) : list Outbound :=
  drop (length (outbox_of ws st)) (outbox_of ws st').

Definition close_reason (ws : Handle) (st : State) : option (Z * string) :=
  s ← sockets st !! ws; closeFrame s.

(** The handle takes no part in the relay: no listener, no registry entry,
    no suspended listener of its own. *)
Definition task_handle (t : Task) : Handle :=
  match t with
  | AwaitCreate ws _ _ _ _ => ws
  | AwaitUpdate ws _ => ws
  end.

Definition listens (ws : Handle) (st : State) : bool :=
  match sockets st !! ws with
  | Some s => listening s
  | None => false
  end.

Definition Inert (ws : Handle) (sv : Server) : Prop :=
  listens ws (state sv) = false
  ∧ (∀ uid, clients (state sv) !! uid ≠ Some ws)
  ∧ (∀ t, t ∈ pending sv → task_handle t ≠ ws).

Definition connects (ws : Handle) (ev : Event) : Prop :=
  match ev with
  | Connection ws' _ => ws' = ws
  | _ => False
  end.

(** A verifier that accepts the one token ["token-u"], for user ["u"]. *)
Definition verify_u (t : string) : option string :=
  if String.eqb t "token-u" then Some "u" else None.

Definition empty_db : DB := {| users := []; conversations := []; messages := [] |}.

Definition empty_state : State := {| clients := ∅; sockets := ∅; db := empty_db |}.

(** The receiver [uid] is registered with handle [w] and that channel is
    open. *)
Definition reachable_at (uid : string) (w : Handle) (st : State) : bool :=
  bool_decide (lookup uid st = Some w) && is_open w st.




(** ** Sample data *)

Definition empty_server : Server := {| state := empty_state; pending := [] |}.

Definition hello : json :=
  JObject [("type", JString "chat_message"); ("conversationId", JString "c1");
           ("content", JString "hi"); ("receiverId", JString "u2")].

Definition call (t : Z) (fresh : string) : StoreCall :=
  {| unreachable := false; new_id := fresh; now := t |}.

Definition outage : StoreCall :=
  {| unreachable := true; new_id := ""; now := 0 |}.



Definition user (uid : string) : User :=
  {| u_id := uid; u_name := uid; u_profilePic := None |}.

Definition socket_of (uid : string) : Socket := authenticated uid accepted.

(** Users u1, u2 and u3 are connected; u1 and u2 share conversation c1. *)
Definition chat_db : DB :=
  {| users := [user "u1"; user "u2"; user "u3"];
     conversations := [{| c_id := "c1"; user1Id := "u1"; user2Id := "u2";
                          updatedAt := 0 |}];
     messages := [] |}.

Definition chat_state : State :=
  {| clients := {[ "u1" := 1%nat; "u2" := 2%nat; "u3" := 3%nat ]};
     sockets := {[ 1%nat := socket_of "u1"; 2%nat := socket_of "u2";
                   3%nat := socket_of "u3" ]};
     db := chat_db |}.

Definition conversation_c1 : Conversation :=
  {| c_id := "c1"; user1Id := "u1"; user2Id := "u2"; updatedAt := 0 |}.

Definition hi_from (uid : string) : Message :=
  {| m_id := "m1"; content := "hi"; senderId := uid; receiverId := "u2";
     conversationId := "c1"; createdAt := 10 |}.

Definition saved_hi_from (uid : string) : MessageWithSender :=
  {| row := hi_from uid; sender := Some (user uid) |}.

(** ** Conversations and user pairs *)

Definition pair_of (c : Conversation) : string * string := (user1Id c, user2Id c).

(** The table as the get-or-create route keeps it: every row holds its pair
    in sorted order, and no two rows hold the same pair (the unique key). *)
Definition Canonical (d : DB) : Prop :=
  Forall (λ c, String.leb (user1Id c) (user2Id c) = true) (conversations d)
  ∧ NoDup (pair_of <$> conversations d).

Definition same_users (c c' : Conversation) : Prop :=
  (user1Id c = user1Id c' ∧ user2Id c = user2Id c')
  ∨ (user1Id c = user2Id c' ∧ user2Id c = user1Id c').

(** At most one conversation per unordered pair of users. *)
Definition AtMostOnePerPair (d : DB) : Prop :=
  ∀ i j c c', conversations d !! i = Some c → conversations d !! j = Some c' →
              same_users c c' → i = j.

(** ** Sequences of sends on one connection *)

(** An inbound frame with the store calls that settle its two awaits. *)
Definition Send : Type := option json * StoreCall * StoreCall.

(** The frames are processed one at a time, each to its end before the next
    one starts. *)
Definition process_all (receiver_is_relation : bool) (ws : Handle)
    (sends : list Send) (st : State) : State :=
  foldl (λ st (s : Send), process receiver_is_relation ws s.1.1 s.1.2 s.2 st)
        st sends.

Definition sent_text (data : option json) : option string :=
  m ← data; as_text (prop "content" m).

(** [row] is the row persisted for the send [s]. *)
Definition row_of_send (s : Send) (row : Message) : Prop :=
  sent_text s.1.1 = Some (content row)
  ∧ m_id row = new_id s.1.2
  ∧ createdAt row = now s.1.2.

Definition chat_to_u2 (txt : string) : json :=
  JObject [("type", JString "chat_message"); ("conversationId", JString "c1");
           ("content", JString txt); ("receiverId", JString "u2")].

Definition chat_server : Server := {| state := chat_state; pending := [] |}.

(** u1 sends "first" and then "second"; the store settles the second
    insertion before the first. *)
Definition overtaking : list Event :=
  [Inbound 1%nat (Some (chat_to_u2 "first"));
   Inbound 1%nat (Some (chat_to_u2 "second"));
   Settle 1 (call 10 "m2");
   Settle 0 (call 11 "m1");
   Settle 0 (call 12 "");
   Settle 0 (call 13 "")].

(** ** The conversation list: [router.get('/conversations', ...)] *)

(** A conversation row together with [include: { user1, user2, messages:
    { orderBy: { createdAt: 'desc' }, take: 1 } }]. *)
Record ConversationWithDetails := {
  conversation : Conversation;
  user1 : option User;
  user2 : option User;
  last_message : list Message;
}.

(** [where: { OR: [{ user1Id: uid }, { user2Id: uid }] }] *)
Definition participates (uid : string) (c : Conversation) : Prop :=
  user1Id c = uid ∨ user2Id c = uid.

#[global] Instance participates_dec uid c : Decision (participates uid c).
Proof. unfold participates. apply _. Defined.

(** [orderBy: { updatedAt: 'desc' }] *)
Definition newer_first (a b : Conversation) : Prop := updatedAt b ≤ updatedAt a.

#[global] Instance newer_first_dec : RelDecision newer_first.
Proof. intros a b. unfold newer_first. apply _. Defined.

(** [orderBy: { createdAt: 'desc' }] *)
Definition later_first (a b : Message) : Prop := createdAt b ≤ createdAt a.

#[global] Instance later_first_dec : RelDecision later_first.
Proof. intros a b. unfold later_first. apply _. Defined.

Definition with_details (d : DB) (c : Conversation) : ConversationWithDetails :=
  {| conversation := c;
     user1 := find_user (user1Id c) d;
     user2 := find_user (user2Id c) d;
     last_message := take 1 (merge_sort later_first (messages_of (c_id c) d)) |}.

(** [prisma.conversation.findMany({ where, include, orderBy })] *)
Definition conversation_findMany (e : StoreCall) (uid : string) (d : DB)
  : Result (list ConversationWithDetails) :=
  if unreachable e then Rejected StoreUnreachable
  else Resolved (with_details d <$>
                 merge_sort newer_first (filter (participates uid) (conversations d))).

Definition get_conversations (uid : string) (e : StoreCall) (st : State)
  : Response (list ConversationWithDetails) * State :=
  match conversation_findMany e uid (db st) with
  | Rejected _ => (Failure 500 "Failed to fetch conversations", st)
  | Resolved conversations => (Json 200 conversations, st)
  end.

(** ** Further observations *)


(** Every [Connection] event of the run brings a handle the server has not
    seen before, as each accepted socket is a new object. *)
Fixpoint fresh_handles (receiver_is_relation : bool)
    (jwt_verify : string → option string) (sv : Server) (evs : list Event) : Prop :=
  match evs with
  | [] => True
  | ev :: evs =>
      match ev with
      | Connection ws _ | BadTarget ws => sockets (state sv) !! ws = None
      | _ => True
      end
      ∧ fresh_handles receiver_is_relation jwt_verify
          (step receiver_is_relation jwt_verify sv ev) evs
  end.

(** The connection is authenticated as [uid], has its listeners attached
    and has not had its ['close'] event: it is open or closing. *)
Definition Registered (ws : Handle) (uid : string) (st : State) : Prop :=
  ∃ s, sockets st !! ws = Some s ∧ userId s = Some uid
       ∧ listening s = true ∧ readyState s ≠ CLOSED.

(** Every registry entry belongs to such a connection of that user. *)
Definition RegistrySound (st : State) : Prop :=
  ∀ uid ws, uid ≠ "" → clients st !! uid = Some ws → Registered ws uid st.

(** u1 sends with a [senderId] field naming u2. *)
Definition forged : json :=
  JObject [("type", JString "chat_message"); ("conversationId", JString "c1");
           ("content", JString "hi"); ("receiverId", JString "u2");
           ("senderId", JString "u2")].

(** What identifies a conversation: its identifier and its two users. *)
Definition identity_of (c : Conversation) : string * (string * string) :=
  (c_id c, pair_of c).

(** The store [d'] holds everything [d] held: the same users, the messages
    of [d] unchanged at the front of the table, and the conversations of [d]
    with their identifier and users, in place. *)
Definition Grows (d d' : DB) : Prop :=
  users d' = users d
  ∧ messages d `prefix_of` messages d'
  ∧ (identity_of <$> conversations d) `prefix_of` (identity_of <$> conversations d').

(** The socket is the same connection as before, with possibly more written
    on it. *)
Definition same_connection (s s' : Socket) : Prop :=
  userId s' = userId s ∧ readyState s' = readyState s
  ∧ listening s' = listening s ∧ closeFrame s' = closeFrame s
  ∧ outbox s `prefix_of` outbox s'.

(** Between [st] and [st'] no connection was registered, unregistered,
    accepted or closed. *)
Definition Quiet (st st' : State) : Prop :=
  clients st' = clients st
  ∧ ∀ w, option_Forall2 same_connection (sockets st !! w) (sockets st' !! w).

(** Events of a connection's life cycle, handshakes included, as opposed to
    traffic. *)
Definition is_lifecycle (ev : Event) : bool :=
  match ev with
  | Connection _ _ | Close _ | BadTarget _ | PeerClosing _ => true
  | _ => false
  end.

(** u1 sends an empty text to u2. *)
Definition empty_text : json :=
  JObject [("type", JString "chat_message"); ("conversationId", JString "c1");
           ("content", JString ""); ("receiverId", JString "u2")].

(** u1 sends into c1 naming u3, who is no participant of it, as receiver. *)
Definition to_outsider : json :=
  JObject [("type", JString "chat_message"); ("conversationId", JString "c1");
           ("content", JString "hi"); ("receiverId", JString "u3")].


(** ** Ads and favourites: [routes/ads.ts] and [routes/favorites.ts]

    The rows carry the columns these routes read and write. *)

Record Ad := {
  a_id : string;
  a_userId : string;
  a_status : string;
  a_createdAt : Z;
}.

Record Favorite := {
  f_id : string;
  f_userId : string;
  f_adId : string;
  f_createdAt : Z;
}.

Record Account := {
  acc_id : string;
  acc_isAdmin : bool;
}.

Record Shop := {
  accounts : list Account;
  ads : list Ad;
  favorites : list Favorite;
}.

#[global] Instance Ad_eq_dec : EqDecision Ad.
Proof. solve_decision. Defined.
#[global] Instance Favorite_eq_dec : EqDecision Favorite.
Proof. solve_decision. Defined.

Definition find_ad (id : string) (s : Shop) : option Ad :=
  find (λ a, bool_decide (a_id a = id)) (ads s).

Definition find_account (id : string) (s : Shop) : option Account :=
  find (λ u, bool_decide (acc_id u = id)) (accounts s).

(** [f] is the favourite of user [uid] for the ad [adId]. *)
Definition is_favorite_of (uid adId : string) (f : Favorite) : Prop :=
  f_userId f = uid ∧ f_adId f = adId.

#[global] Instance is_favorite_of_dec uid adId f : Decision (is_favorite_of uid adId f).
Proof. unfold is_favorite_of. apply _. Defined.

Definition find_favorite (uid adId : string) (s : Shop) : option Favorite :=
  find (λ f, bool_decide (is_favorite_of uid adId f)) (favorites s).

Definition deleted (a : Ad) : bool := String.eqb (a_status a) "deleted".

(** [orderBy: { createdAt: 'desc' }] on favourites and on ads. *)
Definition favorited_later (f g : Favorite) : Prop := f_createdAt g ≤ f_createdAt f.

#[global] Instance favorited_later_dec : RelDecision favorited_later.
Proof. intros f g. unfold favorited_later. apply _. Defined.

Definition posted_later (a b : Ad) : Prop := a_createdAt b ≤ a_createdAt a.

#[global] Instance posted_later_dec : RelDecision posted_later.
Proof. intros a b. unfold posted_later. apply _. Defined.

Section Marketplace.

(** The schema is not among the sources: a favourite's ad is a relation
    (the code includes [ad] of a favourite) and (userId, adId) is a unique
    key (the code looks a favourite up by [userId_adId]); whether a
    favourite's user is a relation too is left open. *)
Variable favorite_user_is_relation : bool.

(** [prisma.ad.findUnique({ where: { id } })] *)
Definition ad_findUnique (e : StoreCall) (id : string) (s : Shop)
  : Result (option Ad) :=
  if unreachable e then Rejected StoreUnreachable else Resolved (find_ad id s).

(** [prisma.user.findUnique({ where: { id } })] *)
Definition account_findUnique (e : StoreCall) (id : string) (s : Shop)
  : Result (option Account) :=
  if unreachable e then Rejected StoreUnreachable
  else Resolved (find_account id s).

(** [prisma.favorite.findUnique({ where: { userId_adId } })] *)
Definition favorite_findUnique (e : StoreCall) (uid adId : string) (s : Shop)
  : Result (option Favorite) :=
  if unreachable e then Rejected StoreUnreachable
  else Resolved (find_favorite uid adId s).

(** [prisma.favorite.create({ data: { userId, adId } })] *)
Definition favorite_create (e : StoreCall) (uid adId : string) (s : Shop)
  : Result (Favorite * Shop) :=
  if unreachable e then Rejected StoreUnreachable
  else if negb (bool_decide (is_Some (find_ad adId s))
                && (negb favorite_user_is_relation
                    || bool_decide (is_Some (find_account uid s))))
  then Rejected ForeignKeyViolation
  else match find_favorite uid adId s,
             find (λ f, bool_decide (f_id f = new_id e)) (favorites s) with
  | None, None =>
      let f := {| f_id := new_id e; f_userId := uid; f_adId := adId;
                  f_createdAt := now e |} in
      Resolved (f, {| accounts := accounts s; ads := ads s;
                      favorites := favorites s ++ [f] |})
  | _, _ => Rejected UniqueViolation
  end.

(** [prisma.favorite.delete({ where: { userId_adId } })]: rejects when
    there is no such row. *)
Definition favorite_delete (e : StoreCall) (uid adId : string) (s : Shop)
  : Result Shop :=
  if unreachable e then Rejected StoreUnreachable
  else match find_favorite uid adId s with
  | None => Rejected RecordNotFound
  | Some _ =>
      Resolved {| accounts := accounts s; ads := ads s;
                  favorites := filter (λ f, ¬ is_favorite_of uid adId f)
                                      (favorites s) |}
  end.

(** [prisma.favorite.findMany({ where: { userId }, include: { ad },
    orderBy: { createdAt: 'desc' } })] *)
Definition favorite_findMany (e : StoreCall) (uid : string) (s : Shop)
  : Result (list (Favorite * option Ad)) :=
  if unreachable e then Rejected StoreUnreachable
  else Resolved ((λ f, (f, find_ad (f_adId f) s)) <$>
                 merge_sort favorited_later
                   (filter (λ f, f_userId f = uid) (favorites s))).

(** [prisma.ad.update({ where: { id }, data: { status } })] *)
Definition set_status (id status : string) (a : Ad) : Ad :=
  if decide (a_id a = id)
  then {| a_id := a_id a; a_userId := a_userId a; a_status := status;
          a_createdAt := a_createdAt a |}
  else a.

Definition ad_update_status (e : StoreCall) (id status : string) (s : Shop)
  : Result Shop :=
  if unreachable e then Rejected StoreUnreachable
  else match find_ad id s with
  | None => Rejected RecordNotFound
  | Some _ =>
      Resolved {| accounts := accounts s; ads := set_status id status <$> ads s;
                  favorites := favorites s |}
  end.

(** [prisma.ad.findMany({ where: { userId, status: { not: 'deleted' } },
    orderBy: { createdAt: 'desc' } })] *)
Definition ad_findMany_mine (e : StoreCall) (uid : string) (s : Shop)
  : Result (list Ad) :=
  if unreachable e then Rejected StoreUnreachable
  else Resolved (merge_sort posted_later
                   (filter (λ a, a_userId a = uid ∧ deleted a = false) (ads s))).

(** [router.post('/:adId', ...)] of the favourites *)
Definition add_favorite (uid adId : string) (e1 e2 e3 : StoreCall) (s : Shop)
  : Response Favorite * Shop :=
  match ad_findUnique e1 adId s with
  | Rejected _ => (Failure 500 "Failed to add to favorites", s)
  | Resolved ad =>
      if match ad with None => true | Some a => deleted a end
      then (Failure 404 "Ad not found", s)
      else match favorite_findUnique e2 uid adId s with
      | Rejected _ => (Failure 500 "Failed to add to favorites", s)
      | Resolved (Some _) => (Failure 400 "Already in favorites", s)
      | Resolved None =>
          match favorite_create e3 uid adId s with
          | Rejected _ => (Failure 500 "Failed to add to favorites", s)
          | Resolved (favorite, s') => (Json 201 favorite, s')
          end
      end
  end.

(** [router.delete('/:adId', ...)] of the favourites *)
Definition remove_favorite (uid adId : string) (e : StoreCall) (s : Shop)
  : Response string * Shop :=
  match favorite_delete e uid adId s with
  | Rejected _ => (Failure 500 "Failed to remove from favorites", s)
  | Resolved s' => (Json 200 "Removed from favorites", s')
  end.

(** [favorites.filter(f => f.ad.status !== 'deleted').map(f => f.ad)];
    reading [status] of a missing ad throws. *)
Fixpoint valid_ads (l : list (Favorite * option Ad)) : option (list Ad) :=
  match l with
  | [] => Some []
  | (_, None) :: _ => None
  | (_, Some ad) :: l =>
      rest ← valid_ads l;
      Some (if deleted ad then rest else ad :: rest)
  end.

(** [router.get('/', ...)] of the favourites *)
Definition get_favorites (uid : string) (e : StoreCall) (s : Shop)
  : Response (list Ad) * Shop :=
  match favorite_findMany e uid s with
  | Rejected _ => (Failure 500 "Failed to fetch favorites", s)
  | Resolved favorites =>
      match valid_ads favorites with
      | None => (Failure 500 "Failed to fetch favorites", s)
      | Some validFavorites => (Json 200 validFavorites, s)
      end
  end.

(** [router.get('/check/:adId', ...)]; the body is [isFavorite]. *)
Definition check_favorite (uid adId : string) (e : StoreCall) (s : Shop)
  : Response bool * Shop :=
  match favorite_findUnique e uid adId s with
  | Rejected _ => (Failure 500 "Failed to check favorite status", s)
  | Resolved favorite => (Json 200 (bool_decide (is_Some favorite)), s)
  end.

(** [router.get('/:id', ...)] of the ads *)
Definition get_ad (id : string) (e : StoreCall) (s : Shop) : Response Ad * Shop :=
  match ad_findUnique e id s with
  | Rejected _ => (Failure 500 "Failed to fetch ad", s)
  | Resolved None => (Failure 404 "Ad not found", s)
  | Resolved (Some ad) =>
      if deleted ad then (Failure 404 "Ad not found", s) else (Json 200 ad, s)
  end.

(** [router.get('/user/my-ads', ...)] *)
Definition my_ads (uid : string) (e : StoreCall) (s : Shop)
  : Response (list Ad) * Shop :=
  match ad_findMany_mine e uid s with
  | Rejected _ => (Failure 500 "Failed to fetch ads", s)
  | Resolved ads => (Json 200 ads, s)
  end.

(** [router.delete('/:id', ...)] of the ads: [ad.userId !== req.userId &&
    !user?.isAdmin] refuses; the deletion is a change of status. *)
Definition delete_ad (uid id : string) (e1 e2 e3 : StoreCall) (s : Shop)
  : Response string * Shop :=
  match ad_findUnique e1 id s with
  | Rejected _ => (Failure 500 "Failed to delete ad", s)
  | Resolved None => (Failure 404 "Ad not found", s)
  | Resolved (Some ad) =>
      match account_findUnique e2 uid s with
      | Rejected _ => (Failure 500 "Failed to delete ad", s)
      | Resolved user =>
          if negb (bool_decide (a_userId ad = uid))
             && negb (from_option acc_isAdmin false user)
          then (Failure 403 "Unauthorized", s)
          else match ad_update_status e3 id "deleted" s with
          | Rejected _ => (Failure 500 "Failed to delete ad", s)
          | Resolved s' => (Json 200 "Ad deleted successfully", s')
          end
      end
  end.

End Marketplace.

(** No two favourites of the same user for the same ad. *)
Definition OneFavoritePerAd (s : Shop) : Prop :=
  NoDup ((λ f, (f_userId f, f_adId f)) <$> favorites s).

(** Sample data: u1 owns ad a1, u2 owns the deleted ad a2, the
    administrator owns nothing, and u2 has a1 among its favourites. *)
Definition shop : Shop :=
  {| accounts := [{| acc_id := "u1"; acc_isAdmin := false |};
                  {| acc_id := "u2"; acc_isAdmin := false |};
                  {| acc_id := "admin"; acc_isAdmin := true |}];
     ads := [{| a_id := "a1"; a_userId := "u1"; a_status := "active";
                a_createdAt := 1 |};
             {| a_id := "a2"; a_userId := "u2"; a_status := "deleted";
                a_createdAt := 2 |}];
     favorites := [{| f_id := "f1"; f_userId := "u2"; f_adId := "a1";
                      f_createdAt := 3 |}] |}.

(** The ad a favourite stands for in the favourites list, if it is shown. *)
Definition shown_ad (s : Shop) (f : Favorite) : option Ad :=
  a ← find_ad (f_adId f) s; if deleted a then None else Some a.

(** * Properties *)

(** ** Connection Registry *)

Lemma no_token_some t : t ≠ "" → no_token (Some t) = false.
Proof. intros H. simpl. by apply String.eqb_neq. Qed.

Lemma on_connection_accept jwt_verify ws t uid st :
  t ≠ "" → jwt_verify t = Some uid →
  on_connection jwt_verify ws (Some t) st =
    {| clients := <[uid := ws]> (clients st);
       sockets := <[ws := authenticated uid accepted]> (sockets st);
       db := db st |}.
Proof.
  intros Ht Hv. unfold on_connection. rewrite no_token_some by done.
  simpl. rewrite Hv. unfold register, with_clients, with_sockets; simpl.
  f_equal. by rewrite alter_insert_eq.
Qed.

Lemma on_connection_no_token jwt_verify ws token st :
  no_token token = true →
  on_connection jwt_verify ws token st =
    {| clients := clients st;
       sockets := <[ws := socket_close 1008 "No token provided" accepted]> (sockets st);
       db := db st |}.
Proof.
  intros Ht. unfold on_connection. rewrite Ht.
  unfold ws_close, with_sockets; simpl. f_equal. by rewrite alter_insert_eq.
Qed.

Lemma on_connection_invalid jwt_verify ws t st :
  no_token (Some t) = false → jwt_verify t = None →
  on_connection jwt_verify ws (Some t) st =
    {| clients := clients st;
       sockets := <[ws := socket_close 1008 "Invalid token" accepted]> (sockets st);
       db := db st |}.
Proof.
  intros Ht Hv. unfold on_connection. rewrite Ht. simpl. rewrite Hv.
  unfold ws_close, with_sockets; simpl. f_equal. by rewrite alter_insert_eq.
Qed.

Lemma on_close_registered ws s uid st :
  sockets st !! ws = Some s → listening s = true →
  userId s = Some uid → uid ≠ "" →
  on_close ws st =
    {| clients := delete uid (clients st);
       sockets := <[ws := socket_closed s]> (sockets st);
       db := db st |}.
Proof.
  intros Hs Hl Hid Hu. unfold on_close. rewrite Hs, Hl, Hid.
  apply String.eqb_neq in Hu. by rewrite Hu.
Qed.

(** C1, as stated, fails: with the verifier [verify_u], two connections
    authenticate as user ["u"] one after the other, and the close event of the
    first one leaves no registry entry for ["u"], so the lookup does not
    return the second connection. *)
Lemma stale_close_evicts_newer_connection :
  let st1 := on_connection verify_u 1%nat (Some "token-u") empty_state in
  let st2 := on_connection verify_u 2%nat (Some "token-u") st1 in
  lookup "u" st1 = Some 1%nat
  ∧ lookup "u" st2 = Some 2%nat
  ∧ lookup "u" (on_close 1%nat st2) ≠ Some 2%nat.
Proof. vm_compute. repeat split; discriminate. Qed.

(** C1, amended: when connection [c1] and then connection [c2] authenticate
    as the same user [u], lookups return [c1] and then [c2]; the close event
    of the superseded [c1] removes the entry of [u] whichever connection it
    holds, so the lookup is then absent, while [c2] itself stays open with
    its listeners attached. *)
Theorem close_of_superseded_connection_unregisters_user
    (jwt_verify : string → option string) (st : State)
    (c1 c2 : Handle) (u t1 t2 : string) :
  c1 ≠ c2 → u ≠ "" → t1 ≠ "" → t2 ≠ "" →
  jwt_verify t1 = Some u → jwt_verify t2 = Some u →
  let st1 := on_connection jwt_verify c1 (Some t1) st in
  let st2 := on_connection jwt_verify c2 (Some t2) st1 in
  let st3 := on_close c1 st2 in
  lookup u st1 = Some c1
  ∧ lookup u st2 = Some c2
  ∧ lookup u st3 = None
  ∧ Active c2 u st3.
Proof.
  intros Hc Hu Ht1 Ht2 Hv1 Hv2 st1 st2 st3.
  subst st3 st2 st1.
  rewrite (on_connection_accept _ c1 t1 u) by done.
  rewrite (on_connection_accept _ c2 t2 u) by done.
  erewrite (on_close_registered c1 (authenticated u accepted) u); [| | done..].
  2: { simpl. rewrite lookup_insert_ne by congruence. apply lookup_insert_eq. }
  unfold lookup; simpl.
  split_and!.
  - apply lookup_insert_eq.
  - apply lookup_insert_eq.
  - apply lookup_delete_eq.
  - exists (authenticated u accepted). simpl.
    rewrite lookup_insert_ne by done. by rewrite lookup_insert_eq.
Qed.

Lemma close_of_superseded_connection_unregisters_user_witness :
  lookup "u" (on_close 1%nat
                (on_connection verify_u 2%nat (Some "token-u")
                   (on_connection verify_u 1%nat (Some "token-u") empty_state)))
  = None.
Proof.
  apply (close_of_superseded_connection_unregisters_user
           verify_u empty_state 1%nat 2%nat "u" "token-u" "token-u");
    [lia | discriminate | discriminate | discriminate | reflexivity | reflexivity].
Defined.

(** ** Handshake *)

Lemma listening_socket_send x s : listening (socket_send x s) = listening s.
Proof. unfold socket_send. by case_decide. Qed.

Lemma db_ws_send w x st : db (ws_send w x st) = db st.
Proof. done. Qed.

Lemma listens_ws_send ws w x st : listens ws (ws_send w x st) = listens ws st.
Proof.
  unfold listens, ws_send; simpl. rewrite lookup_alter.
  case_decide; [subst|done].
  destruct (sockets st !! ws); simpl; [apply listening_socket_send | done].
Qed.

Lemma listens_ws_closing ws w st : listens ws (ws_closing w st) = listens ws st.
Proof.
  unfold listens, ws_closing; simpl. rewrite lookup_alter.
  case_decide; [subst|done].
  destruct (sockets st !! ws) as [s|]; simpl; [|done].
  unfold socket_closing. by case_decide.
Qed.

(** The three chat routes leave the registry and every channel alone. *)
Lemma post_conversation_frame uid other e1 e2 st :
  clients (post_conversation uid other e1 e2 st).2 = clients st
  ∧ sockets (post_conversation uid other e1 e2 st).2 = sockets st.
Proof.
  unfold post_conversation.
  repeat (case_match; simpl; try done).
Qed.

Lemma get_messages_frame uid cid e1 e2 st :
  (get_messages uid cid e1 e2 st).2 = st.
Proof.
  unfold get_messages. repeat (case_match; simpl; try done).
Qed.

Lemma post_message_frame rr uid cid txt rid e1 e2 e3 st :
  clients (post_message rr uid cid txt rid e1 e2 e3 st).2 = clients st
  ∧ sockets (post_message rr uid cid txt rid e1 e2 e3 st).2 = sockets st.
Proof.
  unfold post_message.
  repeat (case_match; simpl; try done).
Qed.

Lemma on_message_frame ws data st st' t :
  on_message ws data st = (st', t) →
  clients st' = clients st ∧ db st' = db st
  ∧ (∀ w, listens w st' = listens w st)
  ∧ (∀ t', t = Some t' → task_handle t' = ws).
Proof.
  unfold on_message. intros H.
  repeat case_match; simplify_eq; split_and!; try done;
    try (intros; apply listens_ws_send); by intros ? [= <-].
Qed.

Lemma resume_frame rr t e st st' t' :
  resume rr t e st = (st', t') →
  clients st' = clients st
  ∧ (∀ w, listens w st' = listens w st)
  ∧ (∀ t'', t' = Some t'' → task_handle t'' = task_handle t).
Proof.
  unfold resume, lookup. intros H.
  repeat case_match; simplify_eq; split_and!; try done;
    try (intros; by rewrite ?listens_ws_send);
    by intros ? [= <-].
Qed.

Lemma hears_listens ws st : hears ws st = true → listens ws st = true.
Proof.
  unfold hears, listens. destruct (sockets st !! ws); [|done].
  by intros [? _]%andb_prop.
Qed.

Lemma Inert_step rr jwt_verify ws sv ev :
  Inert ws sv → ¬ connects ws ev → Inert ws (step rr jwt_verify sv ev).
Proof.
  intros (Hl & Hc & Hp) Hev. destruct ev; simpl in *.
  - (* Connection *)
    split_and!; simpl; [| |done].
    + unfold on_connection, listens.
      repeat case_match; simpl in *;
        rewrite ?lookup_alter_ne, ?lookup_insert_ne in * by done;
        unfold listens in Hl; by simplify_option_eq.
    + intros uid. unfold on_connection.
      repeat case_match; simpl; try done.
      destruct (decide (s = uid)) as [->|].
      * rewrite lookup_insert_eq. congruence.
      * by rewrite lookup_insert_ne.
  - (* Inbound *)
    destruct (hears ws0 (state sv)) eqn:Hh; [|done].
    assert (ws0 ≠ ws) as Hne.
    { intros ->. apply hears_listens in Hh. congruence. }
    destruct (on_message ws0 data (state sv)) as [st' t] eqn:Hm.
    apply on_message_frame in Hm as (Hcl & _ & Hli & Ht).
    split_and!; simpl.
    + by rewrite Hli.
    + by rewrite Hcl.
    + intros t' [?|Hin]%elem_of_app; [by apply Hp|].
      destruct t; simpl in Hin; [|by apply elem_of_nil in Hin].
      apply list_elem_of_singleton in Hin as ->. by rewrite (Ht _ eq_refl).
  - (* Close *)
    split_and!; simpl; [| |done].
    + unfold on_close, listens in *.
      destruct (decide (ws0 = ws)) as [->|Hne].
      * destruct (sockets (state sv) !! ws) eqn:Hs; [|by rewrite Hs].
        rewrite Hl. simpl. by rewrite lookup_insert_eq.
      * repeat case_match; simpl in *;
          rewrite ?lookup_insert_ne in * by done; by simplify_option_eq.
    + intros uid. unfold on_close, unregister.
      repeat case_match; simpl; try done.
      destruct (decide (s0 = uid)) as [->|].
      * by rewrite lookup_delete_eq.
      * by rewrite lookup_delete_ne.
  - (* Settle *)
    destruct (pending sv !! i) as [t|] eqn:Hi; [|done].
    destruct (resume rr t e (state sv)) as [st' t'] eqn:Hr.
    apply resume_frame in Hr as (Hcl & Hli & Ht).
    split_and!; simpl.
    + by rewrite Hli.
    + by rewrite Hcl.
    + intros t'' [Hin|Hin]%elem_of_app.
      * apply Hp. by eapply list_elem_of_delete_inv.
      * destruct t'; simpl in Hin; [|by apply elem_of_nil in Hin].
        apply list_elem_of_singleton in Hin as ->. rewrite (Ht _ eq_refl).
        apply Hp. by eapply list_elem_of_lookup_2.
  - destruct (post_conversation_frame uid otherUserId e1 e2 (state sv)) as [Hc' Hs'].
    split_and!; simpl; [|by rewrite Hc'|done].
    unfold listens in *. by rewrite Hs'.
  - split_and!; simpl; [| |done]; by rewrite get_messages_frame.
  - destruct (post_message_frame rr uid conversationId_ content_ receiverId_
                e1 e2 e3 (state sv)) as [Hc' Hs'].
    split_and!; simpl; [|by rewrite Hc'|done].
    unfold listens in *. by rewrite Hs'.
  - (* BadTarget *)
    split_and!; simpl; [|done..].
    unfold listens in *. simpl.
    destruct (decide (ws0 = ws)) as [->|Hne].
    + by rewrite lookup_insert_eq.
    + by rewrite lookup_insert_ne.
  - (* PeerClosing *)
    split_and!; simpl; [|done..].
    by rewrite listens_ws_closing.
Qed.

Lemma Inert_run rr jwt_verify ws evs sv :
  Inert ws sv → Forall (λ ev, ¬ connects ws ev) evs →
  Inert ws (run rr jwt_verify sv evs).
Proof.
  revert sv. induction evs as [|ev evs IH]; intros sv Hi Hall; [done|].
  inversion Hall; subst. simpl. apply IH; [|done]. by apply Inert_step.
Qed.

Lemma Inert_deaf rr jwt_verify ws sv data :
  Inert ws sv → step rr jwt_verify sv (Inbound ws data) = sv.
Proof.
  intros (Hl & _). simpl. destruct (hears ws (state sv)) eqn:Hh; [|done].
  apply hears_listens in Hh. congruence.
Qed.

Lemma Inert_not_Active ws uid sv : Inert ws sv → ¬ Active ws uid (state sv).
Proof.
  intros (Hl & _) (s & Hs & _ & Hli & _). unfold listens in Hl.
  rewrite Hs in Hl. congruence.
Qed.

(** Once the request target has parsed: a handshake without a token closes
    the connection with code 1008 and reason "No token provided", one whose
    token fails verification with code 1008 and reason "Invalid token".  In
    both cases the registry is left as it was and, whatever happens
    afterwards, the connection has no listener, no registry entry and is
    never Active, and an inbound frame from it changes nothing. *)
Theorem failed_handshake_closes_and_never_activates
    (receiver_is_relation : bool) (jwt_verify : string → option string)
    (sv : Server) (ws : Handle) (token : option string) (evs : list Event) :
  no_token token = true ∨ jwt_verify (default "" token) = None →
  (∀ uid, clients (state sv) !! uid ≠ Some ws) →
  (∀ t, t ∈ pending sv → task_handle t ≠ ws) →
  Forall (λ ev, ¬ connects ws ev) evs →
  let sv1 := step receiver_is_relation jwt_verify sv (Connection ws token) in
  let sv2 := run receiver_is_relation jwt_verify sv1 evs in
  close_reason ws (state sv1)
    = Some (1008, if no_token token then "No token provided" else "Invalid token")
  ∧ "No token provided" ≠ "Invalid token"
  ∧ is_open ws (state sv1) = false
  ∧ clients (state sv1) = clients (state sv)
  ∧ Inert ws sv2
  ∧ (∀ uid, ¬ Active ws uid (state sv2))
  ∧ (∀ data, step receiver_is_relation jwt_verify sv2 (Inbound ws data) = sv2).
Proof.
  intros Hfail Hfresh Hpend Hevs sv1 sv2.
  assert (state sv1 =
            {| clients := clients (state sv);
               sockets := <[ws := socket_close 1008
                                    (if no_token token then "No token provided"
                                     else "Invalid token") accepted]>
                            (sockets (state sv));
               db := db (state sv) |}) as Hst.
  { subst sv1. simpl. destruct (no_token token) eqn:Hno.
    - by apply on_connection_no_token.
    - destruct Hfail as [?|Hv]; [done|]. destruct token as [t|]; [|done].
      by apply on_connection_invalid. }
  assert (Inert ws sv1) as Hin.
  { split_and!.
    - unfold listens. rewrite Hst. simpl. by rewrite lookup_insert_eq.
    - intros uid. rewrite Hst. simpl. apply Hfresh.
    - subst sv1. simpl. apply Hpend. }
  assert (Inert ws sv2) as Hin2 by by apply Inert_run.
  split_and!.
  - unfold close_reason. rewrite Hst. simpl. by rewrite lookup_insert_eq.
  - done.
  - unfold is_open. rewrite Hst. simpl. by rewrite lookup_insert_eq.
  - by rewrite Hst.
  - done.
  - intros uid. by apply Inert_not_Active.
  - intros data. by apply Inert_deaf.
Qed.

Lemma failed_handshake_closes_and_never_activates_witness :
  let sv1 := step true verify_u empty_server (Connection 1%nat (Some "forged")) in
  let sv2 := run true verify_u sv1 [Inbound 1%nat (Some hello); Close 1%nat;
                                    Settle 0 (call 5 "m1")] in
  close_reason 1%nat (state sv1) = Some (1008, "Invalid token")
  ∧ Inert 1%nat sv2.
Proof.
  intros sv1 sv2.
  pose proof (failed_handshake_closes_and_never_activates
                true verify_u empty_server 1%nat (Some "forged")
                [Inbound 1%nat (Some hello); Close 1%nat; Settle 0 (call 5 "m1")])
    as H.
  simpl in H. destruct H as (H1 & _ & _ & _ & H2 & _).
  - right. reflexivity.
  - intros uid. rewrite lookup_empty. discriminate.
  - intros t Ht. by apply elem_of_nil in Ht.
  - repeat constructor; simpl; tauto.
  - split; [exact H1 | exact H2].
Defined.

(** C6 at its failing input: a handshake that supplies no token and whose
    request target is no URL reference, such as [//].  Building the URL
    throws before the token test and outside the [try], so the listener
    never reaches [ws.close]: the connection carries no close frame and is
    still open, where the same handshake with a target that parses is
    closed with code 1008 and reason "No token provided".  It is not
    registered and gets no listener, so it does not become Active either. *)
Theorem handshake_with_invalid_url_is_not_closed
    (jwt_verify : string → option string) (ws : Handle) (st : State) :
  let st' := connection_listener jwt_verify ws InvalidURL st in
  close_reason ws st' = None
  ∧ is_open ws st' = true
  ∧ listens ws st' = false
  ∧ clients st' = clients st
  ∧ close_reason ws (connection_listener jwt_verify ws (Query None) st)
    = Some (1008, "No token provided")
  ∧ is_open ws (connection_listener jwt_verify ws (Query None) st) = false.
Proof.
  intros st'. subst st'. cbn [connection_listener].
  rewrite (on_connection_no_token _ _ None) by done.
  unfold close_reason, is_open, listens. simpl.
  by rewrite !lookup_insert_eq.
Qed.

(** ** Channels *)

Lemma is_open_ws_send w w' x st : is_open w (ws_send w' x st) = is_open w st.
Proof.
  unfold is_open, ws_send; simpl. rewrite lookup_alter.
  case_decide; [subst|done].
  destruct (sockets st !! w) as [s|]; simpl; [|done].
  unfold socket_send. by case_decide.
Qed.

Lemma outbox_of_ws_send w w' x st :
  outbox_of w (ws_send w' x st)
  = outbox_of w st ++ (if bool_decide (w = w') && is_open w st then [x] else []).
Proof.
  unfold outbox_of, is_open, ws_send; simpl. rewrite lookup_alter.
  case_bool_decide as Hw; simpl.
  - subst w'. rewrite decide_True by done.
    destruct (sockets st !! w) as [s|]; simpl; [|done].
    unfold socket_send. case_bool_decide as Ho.
    + by rewrite decide_True.
    + rewrite decide_False by done. by rewrite app_nil_r.
  - rewrite decide_False by done. by rewrite app_nil_r.
Qed.

Lemma outbox_of_with_db w d st : outbox_of w (with_db d st) = outbox_of w st.
Proof. done. Qed.

Lemma is_open_with_db w d st : is_open w (with_db d st) = is_open w st.
Proof. done. Qed.

Lemma delivered_app w st st' l :
  outbox_of w st' = outbox_of w st ++ l → delivered w st st' = l.
Proof. intros H. unfold delivered. rewrite H. by rewrite drop_app_length. Qed.


Lemma Active_userId ws uid st :
  Active ws uid st → (s ← sockets st !! ws; userId s) = Some uid.
Proof. intros (s & Hs & Hu & _). by rewrite Hs. Qed.


Lemma on_message_chat ws m st :
  is_chat_message (prop "type" m) = true →
  on_message ws (Some m) st
  = (st, Some (AwaitCreate ws (s ← sockets st !! ws; userId s)
                 (prop "conversationId" m) (prop "content" m)
                 (prop "receiverId" m))).
Proof.
  intros H. unfold on_message. rewrite H. destruct m; try done.
Qed.


(** ** Inbound events that are not persisted *)

Lemma chat_state_Active_u1 : Active 1%nat "u1" chat_state.
Proof. exists (socket_of "u1"). by vm_compute. Qed.

Lemma chat_state_Active_u3 : Active 3%nat "u3" chat_state.
Proof. exists (socket_of "u3"). by vm_compute. Qed.

Lemma process_rejected rr ws uid m e1 e2 st err :
  Active ws uid st →
  is_chat_message (prop "type" m) = true →
  message_create rr e1 (prop "content" m) (Some uid) (prop "receiverId" m)
                 (prop "conversationId" m) (db st) = Rejected err →
  process rr ws (Some m) e1 e2 st = ws_send ws failed_to_process st.
Proof.
  intros Ha Hm Hc. unfold process. rewrite on_message_chat by done.
  simpl. rewrite (Active_userId _ _ _ Ha). by rewrite Hc.
Qed.








(** ** The store *)

Lemma message_create_resolved rr e txt s rid cid d saved d' :
  message_create rr e txt s rid cid d = Resolved (saved, d') →
  ∃ txt' s' rid' cid',
    as_text txt = Some txt' ∧ s = Some s' ∧ as_text rid = Some rid'
    ∧ as_text cid = Some cid'
    ∧ row saved = {| m_id := new_id e; content := txt'; senderId := s';
                     receiverId := rid'; conversationId := cid';
                     createdAt := now e |}
    ∧ saved = with_sender d' (row saved)
    ∧ users d' = users d
    ∧ conversations d' = conversations d
    ∧ messages d' = messages d ++ [row saved]
    ∧ is_Some (find_user s' d)
    ∧ is_Some (find_conversation cid' d)
    ∧ find_message (new_id e) d = None.
Proof.
  unfold message_create. intros H.
  destruct (as_text txt) as [txt'|]; [|done].
  destruct s as [s'|]; [|done].
  destruct (as_text rid) as [rid'|]; [|done].
  destruct (as_text cid) as [cid'|]; [|done].
  destruct (unreachable e); [done|].
  destruct (negb _) eqn:Hfk; [done|].
  destruct (find_message (new_id e) d) eqn:Hpk; [done|].
  simplify_eq. exists txt', s', rid', cid'. simpl.
  apply negb_false_iff in Hfk.
  apply andb_prop in Hfk as [[Hs Hc]%andb_prop _].
  apply bool_decide_eq_true in Hs, Hc.
  split_and!; done.
Qed.


Lemma conversation_update_resolved e cid d :
  unreachable e = false → is_Some (find_conversation cid d) →
  conversation_update e cid d
  = Resolved {| users := users d;
                conversations := touch cid (now e) <$> conversations d;
                messages := messages d |}.
Proof.
  intros He [c Hc]. unfold conversation_update. by rewrite He, Hc.
Qed.


Lemma updatedAt_touch cid t c : c_id c = cid → updatedAt (touch cid t c) = t.
Proof. intros H. unfold touch. by rewrite decide_True. Qed.

Lemma find_conversation_id cid d c :
  find_conversation cid d = Some c → c_id c = cid.
Proof.
  unfold find_conversation. intros [_ H]%find_some.
  by apply bool_decide_eq_true in H.
Qed.

(** ** Relaying a persisted message *)

(** The state after an inbound send whose two store calls both resolve. *)
Lemma process_relayed rr ws uid m e1 e2 st saved d1 :
  Active ws uid st →
  is_chat_message (prop "type" m) = true →
  message_create rr e1 (prop "content" m) (Some uid) (prop "receiverId" m)
                 (prop "conversationId" m) (db st) = Resolved (saved, d1) →
  unreachable e2 = false →
  ∃ d2 st2,
    d2 = {| users := users d1;
            conversations := touch (conversationId (row saved)) (now e2)
                               <$> conversations d1;
            messages := messages d1 |}
    ∧ st2 = (match lookup (receiverId (row saved)) st with
             | Some receiverWs =>
                 if is_open receiverWs st
                 then ws_send receiverWs (new_message saved) (with_db d2 st)
                 else with_db d2 st
             | None => with_db d2 st
             end)
    ∧ process rr ws (Some m) e1 e2 st = ws_send ws (message_sent saved) st2.
Proof.
  intros Ha Hm Hc He2.
  destruct (message_create_resolved _ _ _ _ _ _ _ _ _ Hc)
    as (txt & s & rid & cid & _ & _ & _ & _ & Hrow & _ & _ & Hconv & _ & _ & Hex & _).
  eexists _, _. split; [reflexivity|]. split; [reflexivity|].
  unfold process. rewrite on_message_chat by done. simpl.
  rewrite (Active_userId _ _ _ Ha), Hc. simpl.
  rewrite conversation_update_resolved; [done..|].
  rewrite Hrow. simpl. unfold find_conversation. by rewrite Hconv.
Qed.








(** ** Participant checks *)

Lemma post_message_non_participant rr uid cid txt rid e1 e2 e3 st c :
  truthy cid = true → truthy txt = true → truthy rid = true →
  conversation_findUnique e1 cid (db st) = Resolved (Some c) →
  not_participant uid c = true →
  post_message rr uid cid txt rid e1 e2 e3 st = (Failure 403 "Unauthorized", st).
Proof.
  intros H1 H2 H3 Hc Hp. unfold post_message.
  by rewrite H1, H2, H3, Hc, Hp.
Qed.

Lemma get_messages_non_participant uid cid e1 e2 st c :
  conversation_findUnique e1 (Some (JString cid)) (db st) = Resolved (Some c) →
  not_participant uid c = true →
  get_messages uid cid e1 e2 st = (Failure 403 "Unauthorized", st).
Proof. intros Hc Hp. unfold get_messages. by rewrite Hc, Hp. Qed.

(** C2 at its failing input: u3 is not a participant of conversation c1
    (between u1 and u2).  Over the HTTP routes u3 is refused with 403 and
    nothing changes, but the same send as a chat_message event on u3's live
    connection is persisted, pushed to u2 and acknowledged. *)
Theorem non_participant_send_over_live_connection_is_persisted :
  let st' := process true 3%nat (Some hello) (call 10 "m1") (call 11 "") chat_state in
  Active 3%nat "u3" chat_state
  ∧ find_conversation "c1" chat_db = Some conversation_c1
  ∧ not_participant "u3" conversation_c1 = true
  ∧ post_message true "u3" (prop "conversationId" hello) (prop "content" hello)
      (prop "receiverId" hello) (call 9 "") (call 10 "m1") (call 11 "") chat_state
    = (Failure 403 "Unauthorized", chat_state)
  ∧ get_messages "u3" "c1" (call 9 "") (call 10 "") chat_state
    = (Failure 403 "Unauthorized", chat_state)
  ∧ messages (db st') = [hi_from "u3"]
  ∧ (updatedAt <$> find_conversation "c1" (db st')) = Some 11
  ∧ delivered 2%nat chat_state st' = [new_message (saved_hi_from "u3")]
  ∧ delivered 3%nat chat_state st' = [message_sent (saved_hi_from "u3")].
Proof.
  split; [apply chat_state_Active_u3|]. by vm_compute.
Qed.

(** ** The HTTP send route *)





(** ** Get-or-create conversation *)

Lemma sort_pair_comm a b : sort_pair a b = sort_pair b a.
Proof.
  unfold sort_pair, String.ltb.
  rewrite (String.compare_antisym a b).
  destruct (String.compare b a) eqn:Hba; simpl; try done.
  apply String.compare_eq_iff in Hba. by subst.
Qed.

Lemma sort_pair_sorted a b x y :
  sort_pair a b = (x, y) → String.leb x y = true.
Proof.
  unfold sort_pair, String.ltb, String.leb.
  destruct (String.compare b a) eqn:Hba; simpl; intros [= <- <-].
  - by rewrite (String.compare_antisym a b), Hba.
  - by rewrite Hba.
  - by rewrite (String.compare_antisym a b), Hba.
Qed.

Lemma sort_pair_members a b x y :
  sort_pair a b = (x, y) → (x = a ∧ y = b) ∨ (x = b ∧ y = a).
Proof. unfold sort_pair. case_match; intros [= <- <-]; auto. Qed.

Lemma sort_pair_self a : sort_pair a a = (a, a).
Proof. unfold sort_pair. by case_match. Qed.

Lemma find_snoc {A} (P : A → bool) l x :
  find P l = None → P x = true → find P (l ++ [x]) = Some x.
Proof.
  induction l as [|y l IH]; simpl; intros Hn Hx; [by rewrite Hx|].
  destruct (P y); [done|]. by apply IH.
Qed.

Lemma find_pair_pair_of u1 u2 d c :
  find_pair u1 u2 d = Some c → pair_of c = (u1, u2) ∧ c ∈ conversations d.
Proof.
  unfold find_pair. intros [Hin H]%find_some.
  apply andb_prop in H as [H1 H2]. apply bool_decide_eq_true in H1, H2.
  split; [unfold pair_of; congruence|]. by apply list_elem_of_In.
Qed.

Lemma find_pair_none u1 u2 d :
  find_pair u1 u2 d = None → (u1, u2) ∉ pair_of <$> conversations d.
Proof.
  unfold find_pair. intros Hn [c [Hc Hin]]%list_elem_of_fmap.
  apply list_elem_of_In in Hin.
  pose proof (find_none _ _ Hn c Hin) as H. simpl in H.
  unfold pair_of in Hc. simplify_eq.
  by rewrite !bool_decide_eq_true_2 in H.
Qed.

(** The route answers with the row of the sorted pair when the store
    already holds it. *)
Lemma post_conversation_found uid other e1 e2 st c :
  other ≠ "" → unreachable e1 = false →
  find_pair (sort_pair uid other).1 (sort_pair uid other).2 (db st) = Some c →
  post_conversation uid (Some (JString other)) e1 e2 st = (Json 200 c, st).
Proof.
  intros Ho He Hf. unfold post_conversation. simpl.
  apply String.eqb_neq in Ho. rewrite Ho. simpl.
  destruct (sort_pair uid other) as [x y]. simpl in *.
  unfold conversation_findPair. by rewrite He, Hf.
Qed.

(** It creates the row otherwise. *)
Lemma post_conversation_created uid other e1 e2 st :
  other ≠ "" → unreachable e1 = false → unreachable e2 = false →
  is_Some (find_user uid (db st)) → is_Some (find_user other (db st)) →
  find_pair (sort_pair uid other).1 (sort_pair uid other).2 (db st) = None →
  find_conversation (new_id e2) (db st) = None →
  let c := {| c_id := new_id e2; user1Id := (sort_pair uid other).1;
              user2Id := (sort_pair uid other).2; updatedAt := now e2 |} in
  post_conversation uid (Some (JString other)) e1 e2 st
  = (Json 200 c,
     with_db {| users := users (db st);
                conversations := conversations (db st) ++ [c];
                messages := messages (db st) |} st).
Proof.
  intros Ho He1 He2 [ua Hua] [ub Hub] Hf Hid c. unfold post_conversation. simpl.
  apply String.eqb_neq in Ho. rewrite Ho. simpl. subst c.
  destruct (sort_pair uid other) as [x y] eqn:Hs. simpl in *.
  unfold conversation_findPair, conversation_create. rewrite He1, He2, Hf, Hid.
  by destruct (sort_pair_members _ _ _ _ Hs) as [[-> ->]|[-> ->]];
    rewrite Hua, Hub.
Qed.

Lemma Canonical_snoc d c :
  Canonical d → String.leb (user1Id c) (user2Id c) = true →
  find_pair (user1Id c) (user2Id c) d = None →
  Canonical {| users := users d; conversations := conversations d ++ [c];
               messages := messages d |}.
Proof.
  intros [Hs Hn] Hc Hf. split; simpl.
  - apply Forall_app. split; [done|]. by constructor.
  - rewrite fmap_app. apply NoDup_app. split_and!; [done| |].
    + intros p Hp ->%list_elem_of_singleton.
      by apply (find_pair_none _ _ _ Hf).
    + apply NoDup_singleton.
Qed.

Lemma Canonical_AtMostOnePerPair d : Canonical d → AtMostOnePerPair d.
Proof.
  intros [Hs Hn] i j c c' Hi Hj Hsame.
  eapply NoDup_lookup; [exact Hn| |].
  - rewrite list_lookup_fmap, Hi. reflexivity.
  - rewrite list_lookup_fmap, Hj. simpl. f_equal. unfold pair_of.
    destruct Hsame as [[-> ->]|[H1 H2]]; [done|].
    rewrite Forall_forall in Hs.
    pose proof (Hs c (list_elem_of_lookup_2 _ _ _ Hi)) as Hc.
    pose proof (Hs c' (list_elem_of_lookup_2 _ _ _ Hj)) as Hc'.
    simpl in Hc, Hc'. rewrite H1, H2 in Hc.
    pose proof (String.leb_antisym _ _ Hc Hc') as Heq.
    congruence.
Qed.

(** Get-or-create for the requester [uid] and the peer [other]. *)
Lemma post_conversation_get_or_create uid other e1 e2 st :
  other ≠ "" → unreachable e1 = false → unreachable e2 = false →
  is_Some (find_user uid (db st)) → is_Some (find_user other (db st)) →
  find_conversation (new_id e2) (db st) = None →
  ∃ c st',
    post_conversation uid (Some (JString other)) e1 e2 st = (Json 200 c, st')
    ∧ pair_of c = sort_pair uid other
    ∧ find_pair (sort_pair uid other).1 (sort_pair uid other).2 (db st') = Some c
    ∧ (find_pair (sort_pair uid other).1 (sort_pair uid other).2 (db st) = None →
       conversations (db st') = conversations (db st) ++ [c]).
Proof.
  intros Ho He1 He2 Hu Hv Hid.
  destruct (find_pair (sort_pair uid other).1 (sort_pair uid other).2 (db st))
    as [c|] eqn:Hf.
  - exists c, st. split_and!; try done.
    + by apply post_conversation_found.
    + apply find_pair_pair_of in Hf as [-> _]. by destruct (sort_pair uid other).
  - eexists _, _. split_and!.
    + by apply post_conversation_created.
    + unfold pair_of. simpl. by destruct (sort_pair uid other).
    + unfold find_pair in *. simpl. apply find_snoc; [done|]. simpl.
      by rewrite !bool_decide_eq_true_2.
    + done.
Qed.

(** *** The table stays canonical *)

Lemma conversation_create_resolved e u1 u2 d c d' :
  conversation_create e u1 u2 d = Resolved (c, d') →
  user1Id c = u1 ∧ user2Id c = u2 ∧ find_pair u1 u2 d = None
  ∧ d' = {| users := users d; conversations := conversations d ++ [c];
            messages := messages d |}.
Proof.
  unfold conversation_create. intros H.
  repeat case_match; simplify_eq. done.
Qed.

Lemma post_conversation_Canonical uid other e1 e2 st :
  Canonical (db st) → Canonical (db (post_conversation uid other e1 e2 st).2).
Proof.
  intros Hcan. unfold post_conversation.
  destruct (negb (truthy other)); [done|].
  destruct (as_text other) as [o|]; [|done].
  destruct (sort_pair uid o) as [x y] eqn:Hs.
  destruct (conversation_findPair e1 x y (db st)) as [[c|]|]; [done| |done].
  destruct (conversation_create e2 x y (db st)) as [[c d']|] eqn:Hc; [|done].
  apply conversation_create_resolved in Hc as (H1 & H2 & Hf & ->). simpl.
  apply Canonical_snoc; [done| |by rewrite H1, H2].
  rewrite H1, H2. by eapply sort_pair_sorted.
Qed.

Lemma Canonical_same_conversations d d' :
  conversations d' = conversations d → Canonical d → Canonical d'.
Proof. unfold Canonical. by intros ->. Qed.

Lemma Canonical_touch cid t d :
  Canonical d →
  Canonical {| users := users d; conversations := touch cid t <$> conversations d;
               messages := messages d |}.
Proof.
  intros [Hs Hn]. split; simpl.
  - apply Forall_fmap. eapply Forall_impl; [exact Hs|].
    intros c Hc. simpl. unfold touch. by case_decide.
  - rewrite <- list_fmap_compose.
    erewrite (list_fmap_ext _ pair_of); [exact Hn|].
    intros i c _. simpl. unfold touch. by case_decide.
Qed.

Lemma message_create_Canonical rr e txt s rid cid d saved d' :
  message_create rr e txt s rid cid d = Resolved (saved, d') →
  Canonical d → Canonical d'.
Proof.
  intros H. apply Canonical_same_conversations.
  by destruct (message_create_resolved _ _ _ _ _ _ _ _ _ H)
    as (? & ? & ? & ? & _ & _ & _ & _ & _ & _ & _ & ? & _).
Qed.

Lemma conversation_update_Canonical e cid d d' :
  conversation_update e cid d = Resolved d' → Canonical d → Canonical d'.
Proof.
  unfold conversation_update. intros H Hcan.
  repeat case_match; simplify_eq. by apply Canonical_touch.
Qed.

Lemma resume_Canonical rr t e st :
  Canonical (db st) → Canonical (db (resume rr t e st).1).
Proof.
  intros Hcan. destruct t as [ws s cid txt rid|ws saved]; simpl.
  - destruct (message_create rr e txt s rid cid (db st)) as [[sm d]|] eqn:Hc;
      [|done].
    by eapply message_create_Canonical.
  - destruct (conversation_update e _ (db st)) as [d|] eqn:Hu; [|done].
    simpl. apply conversation_update_Canonical in Hu; [|done].
    unfold lookup. repeat case_match; by rewrite ?db_ws_send.
Qed.

Lemma post_message_Canonical rr uid cid txt rid e1 e2 e3 st :
  Canonical (db st) → Canonical (db (post_message rr uid cid txt rid e1 e2 e3 st).2).
Proof.
  intros Hcan. unfold post_message.
  destruct (_ || _); [done|].
  destruct (conversation_findUnique e1 cid (db st)) as [[c|]|]; [|done..].
  destruct (not_participant uid c); [done|].
  destruct (message_create rr e2 txt (Some uid) rid cid (db st))
    as [[saved d1]|] eqn:Hc; [|done].
  apply message_create_Canonical in Hc; [|done].
  destruct (conversation_update e3 _ d1) as [d2|] eqn:Hu; [|done].
  simpl. by eapply conversation_update_Canonical.
Qed.

(** Every event of the server keeps the conversation table canonical. *)
Lemma Canonical_step rr jwt_verify sv ev :
  Canonical (db (state sv)) → Canonical (db (state (step rr jwt_verify sv ev))).
Proof.
  intros Hcan. destruct ev; simpl.
  - unfold on_connection. by repeat case_match.
  - destruct (hears ws (state sv)); [|done].
    destruct (on_message ws data (state sv)) as [st' t] eqn:Hm.
    apply on_message_frame in Hm as (_ & Hdb & _). simpl. by rewrite Hdb.
  - unfold on_close, unregister. by repeat case_match.
  - destruct (pending sv !! i); [|done]. simpl. by apply resume_Canonical.
  - by apply post_conversation_Canonical.
  - by rewrite get_messages_frame.
  - by apply post_message_Canonical.
  - done.
  - done.
Qed.

Lemma Canonical_run rr jwt_verify evs sv :
  Canonical (db (state sv)) →
  Canonical (db (state (run rr jwt_verify sv evs))).
Proof.
  revert sv. induction evs as [|ev evs IH]; intros sv Hcan; [done|].
  simpl. apply IH. by apply Canonical_step.
Qed.

(** C5: for two users A and B known to the store, with the store reachable
    and a fresh identifier at hand, get-or-create invoked by A with peer B
    answers with a conversation of the table, the one the sorted pair is
    looked up to: the row the table already held for that pair, the state
    being unchanged, or else a new row, appended last under the fresh
    identifier, with nothing else changed.  Invoked afterwards by B with
    peer A it answers with that same conversation and changes nothing.  The
    row holds the pair sorted, and the table keeps at most one conversation
    per unordered pair of users: any row with the same two users is that
    conversation. *)
Theorem get_or_create_conversation_ignores_argument_order
    (A B : string) (e1 e2 e3 e4 : StoreCall) (st : State) :
  A ≠ "" → B ≠ "" →
  unreachable e1 = false → unreachable e2 = false → unreachable e3 = false →
  is_Some (find_user A (db st)) → is_Some (find_user B (db st)) →
  find_conversation (new_id e2) (db st) = None →
  Canonical (db st) →
  ∃ c st',
    post_conversation A (Some (JString B)) e1 e2 st = (Json 200 c, st')
    ∧ post_conversation B (Some (JString A)) e3 e4 st' = (Json 200 c, st')
    ∧ pair_of c = sort_pair A B
    ∧ pair_of c = sort_pair B A
    ∧ Canonical (db st')
    ∧ AtMostOnePerPair (db st')
    ∧ c ∈ conversations (db st')
    ∧ find_pair (sort_pair A B).1 (sort_pair A B).2 (db st') = Some c
    ∧ (∀ c0, find_pair (sort_pair A B).1 (sort_pair A B).2 (db st) = Some c0 →
             c = c0 ∧ st' = st)
    ∧ (find_pair (sort_pair A B).1 (sort_pair A B).2 (db st) = None →
       c = {| c_id := new_id e2; user1Id := (sort_pair A B).1;
              user2Id := (sort_pair A B).2; updatedAt := now e2 |}
       ∧ st' = with_db {| users := users (db st);
                          conversations := conversations (db st) ++ [c];
                          messages := messages (db st) |} st)
    ∧ (∀ c', c' ∈ conversations (db st') → same_users c c' → c' = c).
Proof.
  intros HA HB He1 He2 He3 Hu Hv Hid Hcan.
  assert (∃ c st',
            post_conversation A (Some (JString B)) e1 e2 st = (Json 200 c, st')
            ∧ (∀ c0, find_pair (sort_pair A B).1 (sort_pair A B).2 (db st)
                     = Some c0 → c = c0 ∧ st' = st)
            ∧ (find_pair (sort_pair A B).1 (sort_pair A B).2 (db st) = None →
               c = {| c_id := new_id e2; user1Id := (sort_pair A B).1;
                      user2Id := (sort_pair A B).2; updatedAt := now e2 |}
               ∧ st' = with_db {| users := users (db st);
                                  conversations := conversations (db st) ++ [c];
                                  messages := messages (db st) |} st))
    as (c & st' & Hpost & Hget & Hcreate).
  { destruct (find_pair (sort_pair A B).1 (sort_pair A B).2 (db st))
      as [c0|] eqn:Hf.
    - exists c0, st. split_and!; [by apply post_conversation_found| |done].
      by intros ? [= <-].
    - eexists _, _. split_and!; [by apply post_conversation_created|done|done]. }
  assert (find_pair (sort_pair A B).1 (sort_pair A B).2 (db st') = Some c)
    as Hfind.
  { destruct (find_pair (sort_pair A B).1 (sort_pair A B).2 (db st))
      as [c0|] eqn:Hf.
    - by destruct (Hget c0 eq_refl) as [-> ->].
    - destruct (Hcreate eq_refl) as [Hc ->]. unfold find_pair in *. simpl.
      apply find_snoc; [done|]. rewrite Hc. simpl.
      by rewrite !bool_decide_eq_true_2. }
  assert (Canonical (db st')) as Hcan'.
  { pose proof (post_conversation_Canonical A (Some (JString B)) e1 e2 st Hcan)
      as H. by rewrite Hpost in H. }
  pose proof (find_pair_pair_of _ _ _ _ Hfind) as [Hpair Hin].
  pose proof (Canonical_AtMostOnePerPair _ Hcan') as Hone.
  exists c, st'. split_and!; try done.
  - apply post_conversation_found; [done..|].
    by rewrite (sort_pair_comm B A).
  - rewrite Hpair. by destruct (sort_pair A B).
  - rewrite Hpair, (sort_pair_comm B A). by destruct (sort_pair A B).
  - intros c' Hin' Hsame.
    apply list_elem_of_lookup in Hin as [i Hi], Hin' as [j Hj].
    pose proof (Hone i j c c' Hi Hj Hsame). congruence.
Qed.

Lemma chat_db_Canonical : Canonical chat_db.
Proof.
  split.
  - repeat constructor.
  - simpl. apply NoDup_singleton.
Qed.

Lemma get_or_create_conversation_ignores_argument_order_witness :
  ∃ c st',
    post_conversation "u3" (Some (JString "u1")) (call 1 "") (call 2 "c2") chat_state
      = (Json 200 c, st')
    ∧ post_conversation "u1" (Some (JString "u3")) (call 3 "") (call 4 "c3") st'
      = (Json 200 c, st')
    ∧ pair_of c = ("u1", "u3")
    ∧ conversations (db st') = [conversation_c1; c].
Proof.
  destruct (get_or_create_conversation_ignores_argument_order
              "u3" "u1" (call 1 "") (call 2 "c2") (call 3 "") (call 4 "c3")
              chat_state)
    as (c & st' & H1 & H2 & H3 & _ & _ & _ & _ & _ & _ & H10 & _).
  - discriminate.
  - discriminate.
  - reflexivity.
  - reflexivity.
  - reflexivity.
  - by eexists.
  - by eexists.
  - reflexivity.
  - exact chat_db_Canonical.
  - exists c, st'. split_and!; [exact H1 | exact H2 | exact H3 |].
    destruct (H10 eq_refl) as [_ ->]. reflexivity.
Defined.

(** C10: get-or-create accepts the requester's own identifier as
    [otherUserId].  For a user known to the store, with the store reachable
    and a fresh identifier at hand, the request answers with a conversation
    whose two participants are that user, creating it when the store has
    none, and a repeated request answers with that same conversation and
    changes nothing. *)
Theorem get_or_create_conversation_with_oneself
    (uid : string) (e1 e2 e3 e4 : StoreCall) (st : State) :
  uid ≠ "" →
  unreachable e1 = false → unreachable e2 = false → unreachable e3 = false →
  is_Some (find_user uid (db st)) →
  find_conversation (new_id e2) (db st) = None →
  ∃ c st',
    post_conversation uid (Some (JString uid)) e1 e2 st = (Json 200 c, st')
    ∧ user1Id c = uid ∧ user2Id c = uid
    ∧ c ∈ conversations (db st')
    ∧ (find_pair uid uid (db st) = None →
       conversations (db st') = conversations (db st) ++ [c])
    ∧ post_conversation uid (Some (JString uid)) e3 e4 st' = (Json 200 c, st').
Proof.
  intros Hne He1 He2 He3 Hu Hid.
  destruct (post_conversation_get_or_create uid uid e1 e2 st)
    as (c & st' & Hpost & Hpair & Hfind & Hnew); try done.
  rewrite sort_pair_self in *. simpl in *.
  exists c, st'. unfold pair_of in Hpair. simplify_eq.
  split_and!; try done.
  - by apply find_pair_pair_of in Hfind as [_ ?].
  - apply post_conversation_found; [done..|]. by rewrite sort_pair_self.
Qed.

Lemma get_or_create_conversation_with_oneself_witness :
  ∃ c st',
    post_conversation "u1" (Some (JString "u1")) (call 1 "") (call 2 "c2") chat_state
      = (Json 200 c, st')
    ∧ user1Id c = "u1" ∧ user2Id c = "u1"
    ∧ conversations (db st') = [conversation_c1; c].
Proof.
  destruct (get_or_create_conversation_with_oneself
              "u1" (call 1 "") (call 2 "c2") (call 3 "") (call 4 "c3") chat_state)
    as (c & st' & H1 & H2 & H3 & _ & H5 & _).
  - discriminate.
  - reflexivity.
  - reflexivity.
  - reflexivity.
  - by eexists.
  - reflexivity.
  - exists c, st'. split_and!; [exact H1 | exact H2 | exact H3 |].
    apply H5. reflexivity.
Defined.

(** ** Order of persisted messages *)

Lemma resume_update_messages rr ws saved e st :
  messages (db (resume rr (AwaitUpdate ws saved) e st).1) = messages (db st).
Proof.
  simpl. unfold conversation_update.
  destruct (unreachable e); [done|].
  destruct (find_conversation _ (db st)); [|done]. simpl.
  unfold lookup. repeat case_match; by rewrite ?db_ws_send.
Qed.

(** One send processed to its end appends at most one row, its own. *)
Lemma process_appends rr ws (s : Send) st :
  let st' := process rr ws s.1.1 s.1.2 s.2 st in
  messages (db st') = messages (db st)
  ∨ ∃ row, messages (db st') = messages (db st) ++ [row] ∧ row_of_send s row.
Proof.
  destruct s as [[data e1] e2]. simpl.
  destruct data as [m|]; [|by left].
  destruct (is_chat_message (prop "type" m)) eqn:Hm.
  2: { left. unfold process, on_message. rewrite Hm. by destruct m. }
  unfold process. rewrite on_message_chat by done.
  cbn [resume].
  destruct (message_create rr e1 _ _ _ _ (db st)) as [[saved d1]|] eqn:Hc;
    [|by left].
  right. exists (row saved).
  destruct (message_create_resolved _ _ _ _ _ _ _ _ _ Hc)
    as (txt & s' & rid & cid & Htxt & _ & _ & _ & Hrow & _ & _ & _ & Hmsgs & _).
  rewrite resume_update_messages. simpl. split; [done|].
  unfold row_of_send, sent_text. simpl. rewrite Htxt, Hrow. done.
Qed.

Lemma process_all_appends rr ws sends st :
  ∃ rows persisted,
    messages (db (process_all rr ws sends st)) = messages (db st) ++ rows
    ∧ persisted `sublist_of` sends
    ∧ Forall2 row_of_send persisted rows.
Proof.
  revert st. induction sends as [|s sends IH]; intros st.
  - exists [], []. simpl. by rewrite app_nil_r.
  - unfold process_all in *. cbn [foldl].
    destruct (IH (process rr ws s.1.1 s.1.2 s.2 st))
      as (rows & persisted & Hm & Hsub & Hall).
    destruct (process_appends rr ws s st) as [Hsame|(row & Hrow & Hof)].
    + exists rows, persisted. rewrite Hm, Hsame.
      split_and!; [done| |done]. by apply sublist_cons.
    + exists (row :: rows), (s :: persisted). rewrite Hm, Hrow.
      split_and!.
      * by rewrite <- app_assoc.
      * by apply sublist_skip.
      * by constructor.
Qed.

(** A frame is taken up as soon as it arrives, whatever is still pending. *)
Lemma inbound_does_not_wait rr jwt_verify sv ws m :
  hears ws (state sv) = true →
  is_chat_message (prop "type" m) = true →
  step rr jwt_verify sv (Inbound ws (Some m))
  = {| state := state sv;
       pending := pending sv
                  ++ [AwaitCreate ws (s ← sockets (state sv) !! ws; userId s)
                        (prop "conversationId" m) (prop "content" m)
                        (prop "receiverId" m)] |}.
Proof.
  intros Hh Hm. unfold step, spawn. rewrite Hh. by rewrite on_message_chat.
Qed.

(** C8, as stated, fails: u1 sends "first" and then "second" into
    conversation c1 over connection 1.  After the two frames both listeners
    are suspended, the second having started before the first completed;
    the store settles them in the other order, and the persisted order, in
    the table and as read back by u1, is "second" before "first". *)
Lemma second_send_can_be_persisted_first :
  let sv2 := run true verify_u chat_server (take 2 overtaking) in
  let sv := run true verify_u chat_server overtaking in
  length (pending sv2) = 2%nat
  ∧ pending sv = []
  ∧ (content <$> messages (db (state sv))) = ["second"; "first"]
  ∧ (get_messages "u1" "c1" (call 14 "") (call 15 "") (state sv)).1
    = Json 200
        [{| row := {| m_id := "m2"; content := "second"; senderId := "u1";
                      receiverId := "u2"; conversationId := "c1";
                      createdAt := 10 |};
            sender := Some (user "u1") |};
         {| row := {| m_id := "m1"; content := "first"; senderId := "u1";
                      receiverId := "u2"; conversationId := "c1";
                      createdAt := 11 |};
            sender := Some (user "u1") |}].
Proof. by vm_compute. Qed.

(** C8, amended: when the inbound events of a connection are processed one
    at a time, each to its end before the next one starts, the persisted
    order equals the send order: the rows appended to the message table
    are, in order, those of the events that were persisted.  The listener
    itself does not wait: a chat_message frame arriving on a listening
    connection starts its own listener at once, next to whatever is still
    suspended. *)
Theorem sequential_sends_are_persisted_in_send_order
    (receiver_is_relation : bool) (jwt_verify : string → option string)
    (ws : Handle) (sends : list Send) (st : State) :
  (∃ rows persisted,
     messages (db (process_all receiver_is_relation ws sends st))
       = messages (db st) ++ rows
     ∧ persisted `sublist_of` sends
     ∧ Forall2 row_of_send persisted rows)
  ∧ (∀ sv m,
       hears ws (state sv) = true →
       is_chat_message (prop "type" m) = true →
       pending (step receiver_is_relation jwt_verify sv (Inbound ws (Some m)))
       = pending sv
         ++ [AwaitCreate ws (s ← sockets (state sv) !! ws; userId s)
               (prop "conversationId" m) (prop "content" m)
               (prop "receiverId" m)]).
Proof.
  split.
  - apply process_all_appends.
  - intros sv m Hh Hm. by rewrite inbound_does_not_wait.
Qed.

Lemma sequential_sends_are_persisted_in_send_order_witness :
  (content <$> messages (db (process_all true 1%nat
                               [(Some (chat_to_u2 "first"), call 11 "m1", call 12 "");
                                (Some (chat_to_u2 "second"), call 13 "m2", call 14 "")]
                               chat_state)))
  = ["first"; "second"]
  ∧ length (pending (step true verify_u chat_server
                       (Inbound 1%nat (Some (chat_to_u2 "first"))))) = 1%nat.
Proof.
  destruct (sequential_sends_are_persisted_in_send_order true verify_u 1%nat
              [(Some (chat_to_u2 "first"), call 11 "m1", call 12 "");
               (Some (chat_to_u2 "second"), call 13 "m2", call 14 "")]
              chat_state) as [_ H2].
  split.
  - reflexivity.
  - rewrite (H2 chat_server (chat_to_u2 "first")); reflexivity.
Defined.

(** ** Listing routes *)

#[local] Instance not_after_total : Total not_after.
Proof. intros a b. unfold not_after. lia. Qed.
#[local] Instance not_after_trans : Transitive not_after.
Proof. intros a b c. unfold not_after. lia. Qed.
#[local] Instance later_first_total : Total later_first.
Proof. intros a b. unfold later_first. lia. Qed.
#[local] Instance later_first_trans : Transitive later_first.
Proof. intros a b c. unfold later_first. lia. Qed.
#[local] Instance later_first_refl : Reflexive later_first.
Proof. intros a. unfold later_first. lia. Qed.
#[local] Instance newer_first_refl : Reflexive newer_first.
Proof. intros a. unfold newer_first. lia. Qed.
#[local] Instance newer_first_total : Total newer_first.
Proof. intros a b. unfold newer_first. lia. Qed.
#[local] Instance newer_first_trans : Transitive newer_first.
Proof. intros a b c. unfold newer_first. lia. Qed.

Lemma not_participant_false uid c :
  not_participant uid c = false ↔ participates uid c.
Proof.
  unfold not_participant, participates.
  rewrite andb_false_iff, !negb_false_iff, !bool_decide_eq_true. done.
Qed.

(** The first element of a sorted list is related to every element. *)
Lemma sorted_head_first {A} (R : relation A) `{!Reflexive R} (l : list A) (x y : A) :
  StronglySorted R l → head l = Some x → y ∈ l → R x y.
Proof.
  intros Hs Hh Hy. destruct l as [|z l]; [done|]. simpl in Hh. simplify_eq.
  apply StronglySorted_inv in Hs as [_ Hall].
  apply elem_of_cons in Hy as [->|Hy]; [done|].
  rewrite Forall_forall in Hall. by apply Hall.
Qed.

Lemma take_1_head {A} (l : list A) : take 1 l = option_list (head l).
Proof. by destruct l as [|? []]. Qed.

(** X1: the conversation list route never changes the state; when the
    store is reachable it answers 200 with exactly the conversations in
    which the requester is user1 or user2, none of anybody else's, ordered
    by last activity, latest first; when it is not, it answers 500. *)
Theorem conversation_list_is_the_requesters_own
    (uid : string) (e : StoreCall) (st : State) :
  (get_conversations uid e st).2 = st
  ∧ (unreachable e = true →
     (get_conversations uid e st).1 = Failure 500 "Failed to fetch conversations")
  ∧ (unreachable e = false →
     ∃ l, (get_conversations uid e st).1 = Json 200 l
          ∧ (conversation <$> l) ≡ₚ filter (participates uid) (conversations (db st))
          ∧ Forall (λ x, participates uid (conversation x)) l
          ∧ Sorted newer_first (conversation <$> l)).
Proof.
  unfold get_conversations, conversation_findMany.
  destruct (unreachable e); simpl; split_and!; try done.
  intros _. eexists. split; [done|].
  rewrite <- list_fmap_compose.
  assert (∀ l : list Conversation,
            (conversation ∘ with_details (db st)) <$> l = l) as Hid.
  { intros l. induction l; simpl; by f_equal. }
  rewrite Hid. split_and!.
  - apply merge_sort_Permutation.
  - apply Forall_fmap, Forall_forall. intros c Hc. simpl.
    rewrite merge_sort_Permutation in Hc.
    by apply list_elem_of_filter in Hc as [? _].
  - apply Sorted_merge_sort. apply _.
Qed.

Lemma conversation_list_is_the_requesters_own_witness :
  (get_conversations "u3" (call 5 "") chat_state).1 = Json 200 []
  ∧ ∃ l, (get_conversations "u1" (call 5 "") chat_state).1 = Json 200 l
         ∧ (conversation <$> l) ≡ₚ [conversation_c1].
Proof.
  destruct (conversation_list_is_the_requesters_own "u1" (call 5 "") chat_state)
    as (_ & _ & H).
  split; [reflexivity|].
  destruct (H eq_refl) as (l & Hl & Hp & _). exists l. split; [exact Hl|exact Hp].
Defined.

(** X2: each entry of the conversation list carries at most one message,
    none exactly when the conversation has no message, and otherwise a
    message of that conversation that no other message of it is more recent
    than. *)
Theorem conversation_preview_is_the_latest_message
    (uid : string) (e : StoreCall) (st : State)
    (l : list ConversationWithDetails) (x : ConversationWithDetails) :
  (get_conversations uid e st).1 = Json 200 l → x ∈ l →
  let own := messages_of (c_id (conversation x)) (db st) in
  (last_message x = [] ↔ own = [])
  ∧ (∀ m, m ∈ last_message x →
       last_message x = [m] ∧ m ∈ messages (db st)
       ∧ conversationId m = c_id (conversation x)
       ∧ ∀ m', m' ∈ own → createdAt m' ≤ createdAt m).
Proof.
  intros Hget Hx own. subst own.
  unfold get_conversations, conversation_findMany in Hget.
  destruct (unreachable e); [done|]. simpl in Hget. simplify_eq.
  apply list_elem_of_fmap in Hx as (c & -> & _). simpl.
  set (own := messages_of (c_id c) (db st)).
  pose proof (merge_sort_Permutation later_first own) as Hperm.
  pose proof (StronglySorted_merge_sort later_first own) as Hsorted.
  rewrite take_1_head.
  destruct (merge_sort later_first own) as [|m sorted] eqn:Hs; simpl.
  - apply Permutation_nil_l in Hperm. rewrite <- Hperm. split; [done|].
    intros m Hm. by apply elem_of_nil in Hm.
  - split.
    + split; [done|]. intros Hown. rewrite Hown in Hperm.
      by apply Permutation_nil_r in Hperm.
    + intros m0 ->%list_elem_of_singleton.
      assert (m ∈ own) as Hin by (rewrite <- Hperm; by left).
      apply list_elem_of_filter in Hin as [Hcid Hin].
      split_and!; try done.
      intros m' Hm'. rewrite <- Hperm in Hm'.
      by apply (sorted_head_first later_first (m :: sorted) m m').
Qed.

Lemma conversation_preview_is_the_latest_message_witness :
  let st := process true 1%nat (Some hello) (call 10 "m1") (call 11 "") chat_state in
  ∃ x, (get_conversations "u2" (call 12 "") st).1 = Json 200 [x]
       ∧ last_message x = [hi_from "u1"].
Proof.
  intros st.
  set (x := with_details (db st)
              {| c_id := "c1"; user1Id := "u1"; user2Id := "u2"; updatedAt := 11 |}).
  assert ((get_conversations "u2" (call 12 "") st).1 = Json 200 [x]) as Hget
    by reflexivity.
  assert (x ∈ [x]) as Hx by (by left).
  destruct (conversation_preview_is_the_latest_message "u2" (call 12 "") st [x] x
              Hget Hx) as [_ H].
  exists x. split; [exact Hget|].
  apply (H (hi_from "u1")). by left.
Defined.

(** X3: a participant reading a conversation gets, when the store is
    reachable, exactly the messages of that conversation and of no other,
    each with its sender, ordered by creation time, oldest first; the state
    is left as it was. *)
Theorem message_history_is_the_conversations_own
    (uid cid : string) (e1 e2 : StoreCall) (st : State) (c : Conversation) :
  find_conversation cid (db st) = Some c → participates uid c →
  unreachable e1 = false → unreachable e2 = false →
  ∃ l, get_messages uid cid e1 e2 st = (Json 200 l, st)
       ∧ (row <$> l) ≡ₚ messages_of cid (db st)
       ∧ Forall (λ x, conversationId (row x) = cid
                      ∧ x = with_sender (db st) (row x)) l
       ∧ Sorted not_after (row <$> l).
Proof.
  intros Hc Hp He1 He2. apply not_participant_false in Hp.
  unfold get_messages, conversation_findUnique, message_findMany. simpl.
  rewrite He1, Hc, Hp, He2. eexists. split; [done|].
  rewrite <- list_fmap_compose.
  assert (∀ l : list Message, (row ∘ with_sender (db st)) <$> l = l) as Hid.
  { intros l. induction l; simpl; by f_equal. }
  rewrite Hid. split_and!.
  - apply merge_sort_Permutation.
  - apply Forall_fmap, Forall_forall. intros m Hm. simpl.
    rewrite merge_sort_Permutation in Hm.
    by apply list_elem_of_filter in Hm as [? _].
  - apply Sorted_merge_sort. apply _.
Qed.

Lemma message_history_is_the_conversations_own_witness :
  ∃ l, get_messages "u2" "c1" (call 1 "") (call 2 "") chat_state
       = (Json 200 l, chat_state)
       ∧ (row <$> l) ≡ₚ [].
Proof.
  destruct (message_history_is_the_conversations_own "u2" "c1" (call 1 "")
              (call 2 "") chat_state conversation_c1)
    as (l & H1 & H2 & _).
  - reflexivity.
  - right. reflexivity.
  - reflexivity.
  - reflexivity.
  - exists l. split; [exact H1 | exact H2].
Defined.

(** ** What a live send does to the store and to the sender's channel *)

Lemma process_update_rejected rr ws uid m e1 e2 st saved d1 :
  Active ws uid st →
  is_chat_message (prop "type" m) = true →
  message_create rr e1 (prop "content" m) (Some uid) (prop "receiverId" m)
                 (prop "conversationId" m) (db st) = Resolved (saved, d1) →
  unreachable e2 = true →
  process rr ws (Some m) e1 e2 st = ws_send ws failed_to_process (with_db d1 st).
Proof.
  intros Ha Hm Hc He2. unfold process. rewrite on_message_chat by done.
  simpl. rewrite (Active_userId _ _ _ Ha), Hc. simpl.
  unfold conversation_update. by rewrite He2.
Qed.

(** X4: whatever frame an Active connection sends, the store gains at most
    one message row, appended last, and the sender recorded in it is the
    user the connection authenticated as, not anything the frame says; the
    users table is never touched. *)
Theorem live_send_records_the_authenticated_sender
    (receiver_is_relation : bool) (ws : Handle) (uid : string)
    (data : option json) (e1 e2 : StoreCall) (st : State) :
  Active ws uid st →
  let st' := process receiver_is_relation ws data e1 e2 st in
  users (db st') = users (db st)
  ∧ (messages (db st') = messages (db st)
     ∨ ∃ row, messages (db st') = messages (db st) ++ [row]
              ∧ senderId row = uid
              ∧ sent_text data = Some (content row)).
Proof.
  intros Ha st'. subst st'.
  destruct data as [m|]; [|by split; [|left]].
  destruct (is_chat_message (prop "type" m)) eqn:Hm.
  2: { unfold process, on_message. rewrite Hm. destruct m; by split; [|left]. }
  destruct (message_create receiver_is_relation e1 (prop "content" m) (Some uid)
              (prop "receiverId" m) (prop "conversationId" m) (db st))
    as [[saved d1]|err] eqn:Hc.
  2: { erewrite process_rejected by done. by split; [|left]. }
  destruct (message_create_resolved _ _ _ _ _ _ _ _ _ Hc)
    as (txt & s & rid & cid & Htxt & Hs & _ & _ & Hrow & _ & Hu & _ & Hmsgs & _).
  assert (users (db (process receiver_is_relation ws (Some m) e1 e2 st)) = users d1
          ∧ messages (db (process receiver_is_relation ws (Some m) e1 e2 st))
            = messages d1) as [Hu' Hm'].
  { destruct (unreachable e2) eqn:He2.
    - by erewrite process_update_rejected.
    - destruct (process_relayed _ _ _ _ _ _ _ _ _ Ha Hm Hc He2)
        as (d2 & st2 & -> & -> & ->).
      rewrite db_ws_send. unfold lookup. repeat case_match; by rewrite ?db_ws_send. }
  rewrite Hu', Hm', Hu, Hmsgs. split; [done|]. right. exists (row saved).
  split_and!; [done| |].
  - rewrite Hrow. simpl. congruence.
  - unfold sent_text. simpl. rewrite Htxt, Hrow. done.
Qed.

Lemma live_send_records_the_authenticated_sender_witness :
  (senderId <$> messages (db (process true 1%nat (Some forged) (call 10 "m1")
                                (call 11 "") chat_state))) = ["u1"].
Proof.
  destruct (live_send_records_the_authenticated_sender true 1%nat "u1"
              (Some forged) (call 10 "m1") (call 11 "") chat_state
              chat_state_Active_u1) as [_ H].
  reflexivity.
Defined.


(** What the listener's last stage writes, for any sender, open or not. *)
Lemma resume_update_outbox rr ws saved e st w :
  unreachable e = false →
  is_Some (find_conversation (conversationId (row saved)) (db st)) →
  outbox_of w (resume rr (AwaitUpdate ws saved) e st).1
  = outbox_of w st
    ++ ((if reachable_at (receiverId (row saved)) w st
         then [new_message saved] else [])
        ++ (if bool_decide (w = ws) && is_open w st
            then [message_sent saved] else [])).
Proof.
  intros He Hc. cbn [resume]. rewrite conversation_update_resolved by done.
  cbn [fst]. rewrite outbox_of_ws_send. unfold reachable_at.
  set (d := {| users := _; conversations := _; messages := _ |}).
  destruct (lookup (receiverId (row saved)) (with_db d st)) as [rws|] eqn:Hr;
    change (lookup (receiverId (row saved)) (with_db d st))
      with (lookup (receiverId (row saved)) st) in Hr; rewrite Hr.
  - rewrite is_open_with_db. destruct (is_open rws st) eqn:Ho.
    + rewrite is_open_ws_send, outbox_of_ws_send, outbox_of_with_db,
        !is_open_with_db.
      rewrite <- app_assoc. do 2 f_equal.
      destruct (decide (w = rws)) as [->|Hne].
      * by rewrite !bool_decide_eq_true_2, Ho.
      * rewrite (bool_decide_eq_false_2 (w = rws)) by done.
        by rewrite (bool_decide_eq_false_2 (Some rws = Some w)) by congruence.
    + rewrite outbox_of_with_db, is_open_with_db. f_equal.
      destruct (bool_decide (Some rws = Some w)) eqn:Hw; [|done].
      apply bool_decide_eq_true in Hw. simplify_eq. by rewrite Ho.
  - rewrite outbox_of_with_db, is_open_with_db.
    by rewrite (bool_decide_eq_false_2 (None = Some w)).
Qed.






(** The store after a live send whose two store calls both resolve. *)
Lemma process_relayed_db rr ws uid m e1 e2 st saved d1 :
  Active ws uid st →
  is_chat_message (prop "type" m) = true →
  message_create rr e1 (prop "content" m) (Some uid) (prop "receiverId" m)
                 (prop "conversationId" m) (db st) = Resolved (saved, d1) →
  unreachable e2 = false →
  db (process rr ws (Some m) e1 e2 st)
  = {| users := users (db st);
       conversations := touch (conversationId (row saved)) (now e2)
                          <$> conversations (db st);
       messages := messages (db st) ++ [row saved] |}.
Proof.
  intros Ha Hm Hc He2.
  destruct (process_relayed _ _ _ _ _ _ _ _ _ Ha Hm Hc He2)
    as (d2 & st2 & Hd2 & Hst2 & ->).
  destruct (message_create_resolved _ _ _ _ _ _ _ _ _ Hc)
    as (? & ? & ? & ? & _ & _ & _ & _ & _ & _ & Hu & Hcs & Hmsgs & _).
  rewrite db_ws_send.
  assert (db st2 = d2) as ->.
  { rewrite Hst2. unfold lookup. repeat case_match; by rewrite ?db_ws_send. }
  rewrite Hd2. by rewrite Hu, Hcs, Hmsgs.
Qed.

Lemma participates_touch uid cid t c :
  participates uid (touch cid t c) ↔ participates uid c.
Proof. unfold touch, participates. by case_decide. Qed.

Lemma c_id_touch cid t c : c_id (touch cid t c) = c_id c.
Proof. unfold touch. by case_decide. Qed.

Lemma touch_other cid t c : c_id c ≠ cid → touch cid t c = c.
Proof. intros H. unfold touch. by rewrite decide_False. Qed.

Lemma messages_of_snoc cid d m us cs :
  conversationId m = cid →
  messages_of cid {| users := us; conversations := cs;
                     messages := messages d ++ [m] |}
  = messages_of cid d ++ [m].
Proof.
  intros H. unfold messages_of. simpl. rewrite filter_app.
  f_equal. by rewrite filter_cons_True.
Qed.

(** X6: after a live send that the store accepted, the conversation list of
    each participant of the target conversation starts with that
    conversation, stamped with the time of the update call, provided that
    time is later than the last activity of every other conversation; and
    its entry shows the new message, provided it is more recent than the
    messages the conversation already had. *)
Theorem accepted_send_moves_conversation_to_the_top
    (receiver_is_relation : bool) (ws : Handle) (uid p : string) (m : json)
    (e1 e2 e3 : StoreCall) (st : State) (saved : MessageWithSender) (d1 : DB)
    (c : Conversation) :
  Active ws uid st →
  is_chat_message (prop "type" m) = true →
  message_create receiver_is_relation e1 (prop "content" m) (Some uid)
    (prop "receiverId" m) (prop "conversationId" m) (db st)
    = Resolved (saved, d1) →
  unreachable e2 = false → unreachable e3 = false →
  find_conversation (conversationId (row saved)) (db st) = Some c →
  participates p c →
  (∀ c', c' ∈ conversations (db st) →
         c_id c' ≠ conversationId (row saved) → updatedAt c' < now e2) →
  let st' := process receiver_is_relation ws (Some m) e1 e2 st in
  ∃ x rest,
    (get_conversations p e3 st').1 = Json 200 (x :: rest)
    ∧ c_id (conversation x) = conversationId (row saved)
    ∧ updatedAt (conversation x) = now e2
    ∧ ((∀ m', m' ∈ messages_of (conversationId (row saved)) (db st) →
              createdAt m' < now e1) →
       last_message x = [row saved]).
Proof.
  intros Ha Hm Hc He2 He3 Hfind Hp Hold st'.
  set (cid := conversationId (row saved)) in *.
  assert (db st' = {| users := users (db st);
                      conversations := touch cid (now e2) <$> conversations (db st);
                      messages := messages (db st) ++ [row saved] |}) as Hdb
    by by eapply process_relayed_db.
  assert (createdAt (row saved) = now e1) as Hat.
  { destruct (message_create_resolved _ _ _ _ _ _ _ _ _ Hc)
      as (? & ? & ? & ? & _ & _ & _ & _ & -> & _). done. }
  unfold get_conversations, conversation_findMany. rewrite He3, Hdb. simpl.
  set (own := filter (participates p) (touch cid (now e2) <$> conversations (db st))).
  pose proof (merge_sort_Permutation newer_first own) as Hperm.
  pose proof (StronglySorted_merge_sort newer_first own) as Hsorted.
  assert (touch cid (now e2) c ∈ own) as Hin.
  { apply list_elem_of_filter. split; [by apply participates_touch|].
    apply list_elem_of_fmap_2. unfold find_conversation in Hfind.
    apply find_some in Hfind as [Hfind _]. by apply list_elem_of_In. }
  assert (c_id c = cid) as Hcid by by eapply find_conversation_id.
  destruct (merge_sort newer_first own) as [|h sorted] eqn:Hs.
  { rewrite <- Hperm in Hin. by apply elem_of_nil in Hin. }
  exists (with_details
            {| users := users (db st);
               conversations := touch cid (now e2) <$> conversations (db st);
               messages := messages (db st) ++ [row saved] |} h),
         (with_details
            {| users := users (db st);
               conversations := touch cid (now e2) <$> conversations (db st);
               messages := messages (db st) ++ [row saved] |} <$> sorted).
  split; [done|]. simpl.
  assert (h ∈ own) as Hh by (rewrite <- Hperm; by left).
  apply list_elem_of_filter in Hh as [_ Hh].
  apply list_elem_of_fmap in Hh as (h0 & -> & Hh0).
  assert (now e2 ≤ updatedAt (touch cid (now e2) h0)) as Hle.
  { rewrite <- Hperm in Hin.
    pose proof (sorted_head_first newer_first _ _ _ Hsorted eq_refl Hin) as H.
    unfold newer_first in H. by rewrite (updatedAt_touch cid (now e2) c) in H. }
  assert (c_id h0 = cid) as Hh0id.
  { destruct (decide (c_id h0 = cid)) as [|Hne]; [done|].
    rewrite touch_other in Hle by done.
    pose proof (Hold h0 Hh0 Hne). lia. }
  split_and!.
  - by rewrite c_id_touch.
  - by apply updatedAt_touch.
  - intros Holder. rewrite c_id_touch, Hh0id.
    rewrite messages_of_snoc by done.
    set (l0 := messages_of cid (db st)) in *.
    pose proof (merge_sort_Permutation later_first (l0 ++ [row saved])) as Hp2.
    pose proof (StronglySorted_merge_sort later_first (l0 ++ [row saved])) as Hs2.
    rewrite take_1_head.
    destruct (merge_sort later_first (l0 ++ [row saved])) as [|h2 s2] eqn:Hms.
    { apply Permutation_nil_l in Hp2. by destruct l0. }
    simpl. f_equal.
    assert (row saved ∈ h2 :: s2) as Hsaved.
    { rewrite Hp2. apply elem_of_app. right. by left. }
    pose proof (sorted_head_first later_first _ _ _ Hs2 eq_refl Hsaved) as Hge.
    unfold later_first in Hge.
    assert (h2 ∈ l0 ++ [row saved]) as Hh2 by (rewrite <- Hp2; by left).
    apply elem_of_app in Hh2 as [Hh2|Hh2%list_elem_of_singleton]; [|done].
    pose proof (Holder h2 Hh2). lia.
Qed.

Lemma accepted_send_moves_conversation_to_the_top_witness :
  let st' := process true 1%nat (Some hello) (call 10 "m1") (call 11 "") chat_state in
  ∃ x rest,
    (get_conversations "u2" (call 12 "") st').1 = Json 200 (x :: rest)
    ∧ updatedAt (conversation x) = 11
    ∧ last_message x = [hi_from "u1"].
Proof.
  intros st'.
  destruct (accepted_send_moves_conversation_to_the_top true 1%nat "u1" "u2" hello
              (call 10 "m1") (call 11 "") (call 12 "") chat_state
              (saved_hi_from "u1")
              {| users := users chat_db; conversations := conversations chat_db;
                 messages := [hi_from "u1"] |} conversation_c1)
    as (x & rest & H1 & _ & H3 & H4).
  - exact chat_state_Active_u1.
  - reflexivity.
  - reflexivity.
  - reflexivity.
  - reflexivity.
  - reflexivity.
  - right. reflexivity.
  - intros c' Hc' Hne. apply list_elem_of_singleton in Hc'. subst c'.
    exfalso. apply Hne. reflexivity.
  - exists x, rest. split_and!; [exact H1 | exact H3 |].
    apply H4. intros m' Hm'. by apply elem_of_nil in Hm'.
Defined.

(** ** The store only grows *)

Lemma Grows_refl d : Grows d d.
Proof. by split_and!. Qed.

Lemma Grows_trans d1 d2 d3 : Grows d1 d2 → Grows d2 d3 → Grows d1 d3.
Proof.
  intros (Hu1 & Hm1 & Hc1) (Hu2 & Hm2 & Hc2). split_and!.
  - congruence.
  - by etrans.
  - by etrans.
Qed.

Lemma identity_of_touch cid t c : identity_of (touch cid t c) = identity_of c.
Proof. unfold touch. by case_decide. Qed.

Lemma message_create_Grows rr e txt s rid cid d saved d' :
  message_create rr e txt s rid cid d = Resolved (saved, d') → Grows d d'.
Proof.
  intros H.
  destruct (message_create_resolved _ _ _ _ _ _ _ _ _ H)
    as (? & ? & ? & ? & _ & _ & _ & _ & _ & _ & Hu & Hc & Hm & _).
  split_and!; [done| |by rewrite Hc].
  rewrite Hm. by apply prefix_app_r.
Qed.

Lemma conversation_update_Grows e cid d d' :
  conversation_update e cid d = Resolved d' → Grows d d'.
Proof.
  unfold conversation_update. intros H.
  repeat case_match; simplify_eq. split_and!; simpl; try done.
  rewrite <- list_fmap_compose.
  rewrite (list_fmap_ext (identity_of ∘ touch cid (now e)) identity_of); [done|].
  intros i c0 _. simpl. apply identity_of_touch.
Qed.

Lemma conversation_create_Grows e u1 u2 d c d' :
  conversation_create e u1 u2 d = Resolved (c, d') → Grows d d'.
Proof.
  intros H. apply conversation_create_resolved in H as (_ & _ & _ & ->).
  split_and!; simpl; try done.
  rewrite fmap_app. by apply prefix_app_r.
Qed.

Lemma resume_Grows rr t e st : Grows (db st) (db (resume rr t e st).1).
Proof.
  destruct t as [ws s cid txt rid|ws saved]; simpl.
  - destruct (message_create rr e txt s rid cid (db st)) as [[sm d]|] eqn:Hc;
      simpl; [by eapply message_create_Grows|apply Grows_refl].
  - destruct (conversation_update e _ (db st)) as [d|] eqn:Hu;
      simpl; [|apply Grows_refl].
    apply conversation_update_Grows in Hu.
    unfold lookup. repeat case_match; by rewrite ?db_ws_send.
Qed.

Lemma post_conversation_Grows uid other e1 e2 st :
  Grows (db st) (db (post_conversation uid other e1 e2 st).2).
Proof.
  unfold post_conversation.
  destruct (negb (truthy other)); [apply Grows_refl|].
  destruct (as_text other) as [o|]; [|apply Grows_refl].
  destruct (sort_pair uid o) as [x y].
  destruct (conversation_findPair e1 x y (db st)) as [[c|]|]; try apply Grows_refl.
  destruct (conversation_create e2 x y (db st)) as [[c d']|] eqn:Hc;
    [|apply Grows_refl].
  by eapply conversation_create_Grows.
Qed.

Lemma post_message_Grows rr uid cid txt rid e1 e2 e3 st :
  Grows (db st) (db (post_message rr uid cid txt rid e1 e2 e3 st).2).
Proof.
  unfold post_message.
  destruct (_ || _); [apply Grows_refl|].
  destruct (conversation_findUnique e1 cid (db st)) as [[c|]|]; try apply Grows_refl.
  destruct (not_participant uid c); [apply Grows_refl|].
  destruct (message_create rr e2 txt (Some uid) rid cid (db st))
    as [[saved d1]|] eqn:Hc; [|apply Grows_refl].
  apply message_create_Grows in Hc.
  destruct (conversation_update e3 _ d1) as [d2|] eqn:Hu; simpl; [|done].
  eapply Grows_trans; [done|]. by eapply conversation_update_Grows.
Qed.

Lemma step_Grows rr jwt_verify sv ev :
  Grows (db (state sv)) (db (state (step rr jwt_verify sv ev))).
Proof.
  destruct ev; simpl.
  - unfold on_connection. repeat case_match; apply Grows_refl.
  - destruct (hears ws (state sv)); [|apply Grows_refl].
    destruct (on_message ws data (state sv)) as [st' t] eqn:Hm.
    apply on_message_frame in Hm as (_ & Hdb & _). simpl. rewrite Hdb.
    apply Grows_refl.
  - unfold on_close, unregister. repeat case_match; apply Grows_refl.
  - destruct (pending sv !! i); [|apply Grows_refl]. simpl. apply resume_Grows.
  - apply post_conversation_Grows.
  - rewrite get_messages_frame. apply Grows_refl.
  - apply post_message_Grows.
  - apply Grows_refl.
  - apply Grows_refl.
Qed.

(** X7: no sequence of connections, frames, closes, settled store calls
    and chat requests ever edits or removes a message, changes the users
    table, removes a conversation or changes a conversation's identifier or
    users: the message table of any earlier state is a prefix of the later
    one, and so is the list of conversation identities. *)
Theorem store_only_grows
    (receiver_is_relation : bool) (jwt_verify : string → option string)
    (evs : list Event) (sv : Server) :
  Grows (db (state sv))
        (db (state (run receiver_is_relation jwt_verify sv evs))).
Proof.
  revert sv. induction evs as [|ev evs IH]; intros sv; [apply Grows_refl|].
  simpl. eapply Grows_trans; [apply step_Grows|apply IH].
Qed.

(** ** Traffic leaves connections alone *)

Lemma same_connection_refl s : same_connection s s.
Proof. by split_and!. Qed.

Lemma same_connection_trans s1 s2 s3 :
  same_connection s1 s2 → same_connection s2 s3 → same_connection s1 s3.
Proof.
  intros (?&?&?&?&?) (?&?&?&?&?). split_and!; try congruence. by etrans.
Qed.

Lemma same_connection_send x s : same_connection s (socket_send x s).
Proof.
  unfold socket_send. case_decide; [|apply same_connection_refl].
  split_and!; simpl; try done. by apply prefix_app_r.
Qed.

Lemma Quiet_refl st : Quiet st st.
Proof.
  split; [done|]. intros w. destruct (sockets st !! w); constructor.
  apply same_connection_refl.
Qed.

Lemma Quiet_trans st1 st2 st3 : Quiet st1 st2 → Quiet st2 st3 → Quiet st1 st3.
Proof.
  intros [Hc1 Hs1] [Hc2 Hs2]. split; [congruence|]. intros w.
  specialize (Hs1 w). specialize (Hs2 w).
  destruct Hs1; inversion Hs2; subst; constructor.
  by eapply same_connection_trans.
Qed.

Lemma Quiet_ws_send w x st : Quiet st (ws_send w x st).
Proof.
  split; [done|]. intros w'. unfold ws_send; simpl. rewrite lookup_alter.
  case_decide; [subst|].
  - destruct (sockets st !! w'); constructor. apply same_connection_send.
  - destruct (sockets st !! w'); constructor. apply same_connection_refl.
Qed.

Lemma Quiet_same st st' :
  clients st' = clients st → sockets st' = sockets st → Quiet st st'.
Proof.
  intros Hc Hs. split; [done|]. intros w. rewrite Hs.
  destruct (sockets st !! w); constructor. apply same_connection_refl.
Qed.

Lemma on_message_Quiet ws data st : Quiet st (on_message ws data st).1.
Proof.
  unfold on_message. repeat case_match; simpl;
    try apply Quiet_refl; apply Quiet_ws_send.
Qed.

Lemma resume_Quiet rr t e st : Quiet st (resume rr t e st).1.
Proof.
  destruct t as [ws s cid txt rid|ws saved]; simpl.
  - destruct (message_create _ _ _ _ _ _ _) as [[sm d]|]; simpl.
    + by apply Quiet_same.
    + apply Quiet_ws_send.
  - destruct (conversation_update _ _ _) as [d|]; simpl; [|apply Quiet_ws_send].
    eapply Quiet_trans; [|apply Quiet_ws_send].
    unfold lookup. repeat case_match; try by apply Quiet_same.
    eapply Quiet_trans; [|apply Quiet_ws_send]. by apply Quiet_same.
Qed.

Lemma step_Quiet rr jwt_verify sv ev :
  is_lifecycle ev = false → Quiet (state sv) (state (step rr jwt_verify sv ev)).
Proof.
  intros Hev. destruct ev; try done; simpl.
  - destruct (hears ws (state sv)); [|apply Quiet_refl]. apply on_message_Quiet.
  - destruct (pending sv !! i); [|apply Quiet_refl]. apply resume_Quiet.
  - destruct (post_conversation_frame uid otherUserId e1 e2 (state sv)).
    by apply Quiet_same.
  - rewrite get_messages_frame. apply Quiet_refl.
  - destruct (post_message_frame rr uid conversationId_ content_ receiverId_
                e1 e2 e3 (state sv)).
    by apply Quiet_same.
Qed.

(** X8: frames, settled store calls and chat requests, in any number and
    order, never register, unregister, accept or close a connection: the
    registry is unchanged, every socket keeps its user, ready state,
    listeners and close frame, and what was written on it stays written,
    at the front of its outbox. *)
Theorem traffic_leaves_connections_alone
    (receiver_is_relation : bool) (jwt_verify : string → option string)
    (evs : list Event) (sv : Server) :
  Forall (λ ev, is_lifecycle ev = false) evs →
  Quiet (state sv) (state (run receiver_is_relation jwt_verify sv evs)).
Proof.
  revert sv. induction evs as [|ev evs IH]; intros sv Hall; [apply Quiet_refl|].
  inversion Hall; subst. simpl.
  eapply Quiet_trans; [by apply step_Quiet|by apply IH].
Qed.

Lemma traffic_leaves_connections_alone_witness :
  Quiet chat_state (state (run true verify_u chat_server overtaking)).
Proof.
  apply (traffic_leaves_connections_alone true verify_u overtaking chat_server).
  repeat constructor.
Defined.

(** ** The registry holds connections that are not closed *)

Lemma Quiet_Registered st st' w uid :
  Quiet st st' → Registered w uid st → Registered w uid st'.
Proof.
  intros [_ Hs] (s & Hw & Hu & Hl & Ho). specialize (Hs w).
  rewrite Hw in Hs. inversion Hs as [? s' Hsame|].
  destruct Hsame as (?&?&?&?&?). exists s'. split_and!; congruence.
Qed.

Lemma RegistrySound_Quiet st st' : Quiet st st' → RegistrySound st → RegistrySound st'.
Proof.
  intros HQ Hs uid ws Hne Hc. pose proof HQ as [Hcl _].
  rewrite Hcl in Hc. apply (Quiet_Registered st st'); [done|]. by apply Hs.
Qed.

Lemma Registered_insert_other st w uid ws s cl :
  Registered w uid st → sockets st !! ws = None →
  Registered w uid {| clients := cl; sockets := <[ws := s]> (sockets st);
                      db := db st |}.
Proof.
  intros (s0 & Hw & ?) Hfresh. exists s0. simpl.
  rewrite lookup_insert_ne; [done|]. intros ->. congruence.
Qed.

Lemma on_connection_RegistrySound jwt_verify ws token st :
  sockets st !! ws = None → RegistrySound st →
  RegistrySound (on_connection jwt_verify ws token st).
Proof.
  intros Hfresh Hs.
  destruct (no_token token) eqn:Hno.
  { rewrite on_connection_no_token by done. intros uid w Hne Hc. simpl in Hc.
    by apply Registered_insert_other; [apply Hs|]. }
  destruct token as [t|]; [|done].
  destruct (jwt_verify t) as [u|] eqn:Hv.
  - rewrite (on_connection_accept _ _ _ u); [|by intros ->|done].
    intros uid w Hne Hc. simpl in Hc.
    destruct (decide (u = uid)) as [->|Hu].
    + rewrite lookup_insert_eq in Hc. simplify_eq.
      exists (authenticated uid accepted). simpl.
      by rewrite lookup_insert_eq.
    + rewrite lookup_insert_ne in Hc by done.
      by apply Registered_insert_other; [apply Hs|].
  - rewrite on_connection_invalid by done. intros uid w Hne Hc. simpl in Hc.
    by apply Registered_insert_other; [apply Hs|].
Qed.

Lemma on_close_RegistrySound ws st :
  RegistrySound st → RegistrySound (on_close ws st).
Proof.
  intros Hs. unfold on_close.
  destruct (sockets st !! ws) as [s|] eqn:Hws; [|done].
  assert (∀ uid w cl,
            uid ≠ "" → clients st !! uid = Some w → w ≠ ws →
            Registered w uid {| clients := cl;
                                sockets := <[ws := socket_closed s]> (sockets st);
                                db := db st |}) as Hkeep.
  { intros uid w cl Hne Hc Hw. destruct (Hs uid w Hne Hc) as (s0 & ? & ?).
    exists s0. simpl. by rewrite lookup_insert_ne. }
  assert (∀ uid, uid ≠ "" → clients st !! uid = Some ws →
                 listening s = true ∧ userId s = Some uid) as Hown.
  { intros uid Hne Hc. destruct (Hs uid ws Hne Hc) as (s0 & Hs0 & ? & ? & _).
    by simplify_eq. }
  destruct (listening s) eqn:Hl.
  - destruct (userId s) as [u|] eqn:Hu.
    + destruct (String.eqb u "") eqn:Hempty.
      * apply String.eqb_eq in Hempty. subst u.
        intros uid w Hne Hc. simpl in Hc. apply Hkeep; [done..|].
        intros ->. destruct (Hown uid Hne Hc) as [_ ?]. congruence.
      * intros uid w Hne Hc. unfold unregister in Hc. simpl in Hc.
        destruct (decide (u = uid)) as [->|Hne'].
        { by rewrite lookup_delete_eq in Hc. }
        rewrite lookup_delete_ne in Hc by done.
        apply Hkeep; [done..|].
        intros ->. destruct (Hown uid Hne Hc) as [_ ?]. congruence.
    + intros uid w Hne Hc. simpl in Hc. apply Hkeep; [done..|].
      intros ->. by destruct (Hown uid Hne Hc) as [_ ?].
  - intros uid w Hne Hc. simpl in Hc. apply Hkeep; [done..|].
    intros ->. by destruct (Hown uid Hne Hc) as [? _].
Qed.

Lemma ws_closing_RegistrySound ws st :
  RegistrySound st → RegistrySound (ws_closing ws st).
Proof.
  intros Hs uid w Hne Hc. simpl in Hc.
  destruct (Hs uid w Hne Hc) as (s & Hw & Hu & Hl & Ho).
  unfold Registered, ws_closing. simpl. rewrite lookup_alter.
  case_decide; [subst|by exists s].
  exists (socket_closing s). rewrite Hw. simpl.
  unfold socket_closing. case_decide; simpl; by split_and!.
Qed.

Lemma step_RegistrySound rr jwt_verify sv ev :
  match ev with
  | Connection ws _ | BadTarget ws => sockets (state sv) !! ws = None
  | _ => True
  end →
  RegistrySound (state sv) → RegistrySound (state (step rr jwt_verify sv ev)).
Proof.
  intros Hfresh Hs.
  destruct (is_lifecycle ev) eqn:Hev.
  - destruct ev; try done; simpl.
    + by apply on_connection_RegistrySound.
    + by apply on_close_RegistrySound.
    + intros uid w Hne Hc. simpl in Hc.
      by apply Registered_insert_other; [apply Hs|].
    + by apply ws_closing_RegistrySound.
  - eapply RegistrySound_Quiet; [|done]. by apply step_Quiet.
Qed.

(** X9: as long as every handshake brings a new handle, every registry
    entry for a non-empty user identifier is, after any sequence of events,
    a connection authenticated as that very user, with its listeners
    attached, whose ['close'] event has not happened: it is open or, the
    peer's close frame having arrived, closing.  A closed connection is
    never left registered; a closing one can be, which is the case the
    relay's test of [readyState] before a push is there for. *)
Theorem registry_holds_only_active_connections
    (receiver_is_relation : bool) (jwt_verify : string → option string)
    (evs : list Event) (sv : Server) :
  RegistrySound (state sv) →
  fresh_handles receiver_is_relation jwt_verify sv evs →
  RegistrySound (state (run receiver_is_relation jwt_verify sv evs)).
Proof.
  revert sv. induction evs as [|ev evs IH]; intros sv Hs Hfresh; [done|].
  destruct Hfresh as [Hev Hrest]. simpl. apply IH; [|done].
  by apply step_RegistrySound.
Qed.

Lemma registry_holds_only_active_connections_witness :
  let sv := run true verify_u empty_server
              [Connection 1%nat (Some "token-u"); Connection 2%nat (Some "token-u");
               Close 1%nat; Connection 3%nat (Some "token-u");
               BadTarget 4%nat; PeerClosing 3%nat] in
  RegistrySound (state sv)
  ∧ lookup "u" (state sv) = Some 3%nat
  ∧ is_open 3%nat (state sv) = false.
Proof.
  intros sv. split; [|split; reflexivity].
  apply (registry_holds_only_active_connections true verify_u
           [Connection 1%nat (Some "token-u"); Connection 2%nat (Some "token-u");
            Close 1%nat; Connection 3%nat (Some "token-u");
            BadTarget 4%nat; PeerClosing 3%nat] empty_server).
  - intros uid ws _ H.
    change (clients (state empty_server)) with (∅ : gmap string Handle) in H.
    rewrite lookup_empty in H. discriminate.
  - vm_compute. repeat split; reflexivity.
Defined.

(** ** Sends and closing connections *)

Lemma on_close_socket ws st s :
  sockets st !! ws = Some s →
  sockets (on_close ws st) = <[ws := socket_closed s]> (sockets st)
  ∧ db (on_close ws st) = db st.
Proof.
  intros Hs. unfold on_close, unregister. rewrite Hs.
  by repeat case_match.
Qed.

Lemma on_close_not_open ws st : is_open ws (on_close ws st) = false.
Proof.
  unfold is_open. destruct (sockets st !! ws) as [s|] eqn:Hs.
  - destruct (on_close_socket ws st s Hs) as [-> _].
    by rewrite lookup_insert_eq.
  - unfold on_close. by rewrite Hs, Hs.
Qed.

Lemma on_close_outbox ws w st : outbox_of w (on_close ws st) = outbox_of w st.
Proof.
  unfold outbox_of. destruct (sockets st !! ws) as [s|] eqn:Hs.
  - destruct (on_close_socket ws st s Hs) as [-> _].
    destruct (decide (ws = w)) as [->|Hne].
    + by rewrite lookup_insert_eq, Hs.
    + by rewrite lookup_insert_ne.
  - unfold on_close. by rewrite Hs.
Qed.

Lemma settle_last rr jwt_verify st p t e :
  step rr jwt_verify {| state := st; pending := p ++ [t] |} (Settle (length p) e)
  = {| state := (resume rr t e st).1;
       pending := p ++ option_list (resume rr t e st).2 |}.
Proof.
  cbn [step state pending]. rewrite list_lookup_middle by done.
  unfold spawn. by rewrite delete_middle, app_nil_r.
Qed.

(** X10: a frame accepted before its connection closed is still carried
    through.  When the close event arrives while the listener is suspended,
    the message is persisted all the same and pushed to the receiver if it
    is registered with an open channel at that time; only the sender's
    acknowledgment is lost, its channel being closed; and the suspended
    listener is gone from the pending ones. *)
Theorem in_flight_send_survives_close
    (receiver_is_relation : bool) (jwt_verify : string → option string)
    (sv : Server) (ws : Handle) (uid : string) (m : json) (e1 e2 : StoreCall)
    (saved : MessageWithSender) (d1 : DB) :
  Active ws uid (state sv) →
  is_chat_message (prop "type" m) = true →
  message_create receiver_is_relation e1 (prop "content" m) (Some uid)
    (prop "receiverId" m) (prop "conversationId" m) (db (state sv))
    = Resolved (saved, d1) →
  unreachable e2 = false →
  let n := length (pending sv) in
  let closed := on_close ws (state sv) in
  let sv' := run receiver_is_relation jwt_verify sv
               [Inbound ws (Some m); Close ws; Settle n e1; Settle n e2] in
  pending sv' = pending sv
  ∧ messages (db (state sv')) = messages (db (state sv)) ++ [row saved]
  ∧ delivered ws (state sv) (state sv') = []
  ∧ (∀ w, w ≠ ws →
       delivered w (state sv) (state sv')
       = if reachable_at (receiverId (row saved)) w closed
         then [new_message saved] else []).
Proof.
  intros Ha Hm Hc He2 n closed sv'.
  destruct (message_create_resolved _ _ _ _ _ _ _ _ _ Hc)
    as (txt & s & rid & cid & _ & _ & _ & _ & Hrow & _ & _ & Hcs & Hmsgs & _
        & Hconv & _).
  assert (hears ws (state sv) = true) as Hh.
  { destruct Ha as (s0 & Hs0 & _ & Hl & Ho). unfold hears.
    by rewrite Hs0, Hl, Ho. }
  destruct Ha as (s0 & Hs0 & Hu0 & Hl0 & Ho0).
  destruct (on_close_socket ws (state sv) s0 Hs0) as [Hsock Hdb].
  assert (sv' = {| state := (resume receiver_is_relation (AwaitUpdate ws saved) e2
                               (with_db d1 closed)).1;
                   pending := pending sv |}) as ->.
  { subst sv'. unfold run. cbn [foldl].
    rewrite inbound_does_not_wait by done. rewrite Hs0. cbn [mbind option_bind].
    rewrite Hu0.
    change (step receiver_is_relation jwt_verify
              {| state := state sv; pending := pending sv ++ [?t] |} (Close ws))
      with {| state := closed; pending := pending sv ++ [t] |}.
    subst n. rewrite settle_last.
    assert (resume receiver_is_relation
              (AwaitCreate ws (Some uid) (prop "conversationId" m)
                 (prop "content" m) (prop "receiverId" m)) e1 closed
            = (with_db d1 closed, Some (AwaitUpdate ws saved))) as ->.
    { cbn [resume]. subst closed. by rewrite Hdb, Hc. }
    etrans; [apply (settle_last receiver_is_relation jwt_verify
                      (with_db d1 closed) (pending sv) (AwaitUpdate ws saved) e2)|].
    assert ((resume receiver_is_relation (AwaitUpdate ws saved) e2
               (with_db d1 closed)).2 = None) as ->; [|by rewrite app_nil_r].
    cbn [resume]. by destruct (conversation_update _ _ _). }
  assert (is_Some (find_conversation (conversationId (row saved))
                     (db (with_db d1 closed)))) as Hfind.
  { simpl. unfold find_conversation in *. rewrite Hcs, Hrow. done. }
  cbn [state pending]. split_and!.
  - done.
  - rewrite resume_update_messages. simpl. done.
  - apply delivered_app.
    rewrite resume_update_outbox by done.
    rewrite outbox_of_with_db, is_open_with_db. subst closed.
    rewrite on_close_outbox, on_close_not_open, andb_false_r. f_equal.
    unfold reachable_at. rewrite is_open_with_db, on_close_not_open.
    by rewrite andb_false_r.
  - intros w Hw. apply delivered_app.
    rewrite resume_update_outbox by done.
    rewrite outbox_of_with_db. subst closed. rewrite on_close_outbox. f_equal.
    rewrite bool_decide_eq_false_2 by done. simpl. by rewrite app_nil_r.
Qed.

Lemma in_flight_send_survives_close_witness :
  let sv' := run true verify_u chat_server
               [Inbound 1%nat (Some hello); Close 1%nat;
                Settle 0 (call 10 "m1"); Settle 0 (call 11 "")] in
  messages (db (state sv')) = [hi_from "u1"]
  ∧ delivered 1%nat chat_state (state sv') = []
  ∧ delivered 2%nat chat_state (state sv') = [new_message (saved_hi_from "u1")].
Proof.
  intros sv'.
  destruct (in_flight_send_survives_close true verify_u chat_server 1%nat "u1"
              hello (call 10 "m1") (call 11 "") (saved_hi_from "u1")
              {| users := users chat_db; conversations := conversations chat_db;
                 messages := [hi_from "u1"] |})
    as (_ & H2 & H3 & H4).
  - exact chat_state_Active_u1.
  - reflexivity.
  - reflexivity.
  - reflexivity.
  - split_and!; [exact H2 | exact H3 |].
    apply (H4 2%nat). lia.
Defined.



(** ** The HTTP send route, further *)

Lemma message_create_accepts rr e txt s r cid d :
  unreachable e = false →
  is_Some (find_user s d) → is_Some (find_user r d) →
  is_Some (find_conversation cid d) →
  find_message (new_id e) d = None →
  let row := {| m_id := new_id e; content := txt; senderId := s;
                receiverId := r; conversationId := cid; createdAt := now e |} in
  let d' := {| users := users d; conversations := conversations d;
               messages := messages d ++ [row] |} in
  message_create rr e (Some (JString txt)) (Some s) (Some (JString r))
                 (Some (JString cid)) d
  = Resolved ({| row := row; sender := find_user s d |}, d').
Proof.
  intros He Hs Hr Hc Hid row d'. unfold message_create. simpl.
  rewrite He, Hid.
  rewrite !bool_decide_eq_true_2 by done. by rewrite orb_true_r.
Qed.

Lemma truthy_text s : s ≠ "" → truthy (Some (JString s)) = true.
Proof. intros H. simpl. apply negb_true_iff. by apply String.eqb_neq. Qed.

(** X12: a participant's send over HTTP is accepted: with a non-empty
    conversation identifier, text and receiver, the store reachable, sender
    and receiver known users and a fresh identifier at hand, the route
    answers 201 with the stored row, which carries the text, the requester
    as sender and the named receiver.  The receiver only has to be a known
    user: it need not be the other participant of the conversation. *)
Theorem http_send_accepts_a_participant
    (receiver_is_relation : bool) (uid cid txt r : string)
    (e1 e2 e3 : StoreCall) (st : State) (c : Conversation) :
  cid ≠ "" → txt ≠ "" → r ≠ "" →
  find_conversation cid (db st) = Some c → participates uid c →
  is_Some (find_user uid (db st)) → is_Some (find_user r (db st)) →
  unreachable e1 = false → unreachable e2 = false → unreachable e3 = false →
  find_message (new_id e2) (db st) = None →
  let row := {| m_id := new_id e2; content := txt; senderId := uid;
                receiverId := r; conversationId := cid; createdAt := now e2 |} in
  let r201 := post_message receiver_is_relation uid (Some (JString cid))
                (Some (JString txt)) (Some (JString r)) e1 e2 e3 st in
  r201.1 = Json 201 {| row := row; sender := find_user uid (db st) |}
  ∧ messages (db r201.2) = messages (db st) ++ [row]
  ∧ conversations (db r201.2) = touch cid (now e3) <$> conversations (db st).
Proof.
  intros Hcid Htxt Hr Hc Hp Hu Hru He1 He2 He3 Hid row r201.
  subst r201. unfold post_message.
  rewrite !truthy_text by done. simpl.
  unfold conversation_findUnique. simpl. rewrite He1, Hc.
  apply not_participant_false in Hp. rewrite Hp.
  rewrite message_create_accepts by done. simpl.
  rewrite conversation_update_resolved; [done|done|].
  unfold find_conversation in *. simpl. by rewrite Hc.
Qed.

Lemma http_send_accepts_a_participant_witness :
  (post_message true "u1" (Some (JString "c1")) (Some (JString "hi"))
     (Some (JString "u3")) (call 9 "") (call 10 "m1") (call 11 "") chat_state).1
  = Json 201 {| row := {| m_id := "m1"; content := "hi"; senderId := "u1";
                          receiverId := "u3"; conversationId := "c1";
                          createdAt := 10 |};
                sender := Some (user "u1") |}.
Proof.
  apply (http_send_accepts_a_participant true "u1" "c1" "hi" "u3"
           (call 9 "") (call 10 "m1") (call 11 "") chat_state conversation_c1);
    try discriminate; try reflexivity.
  - left. reflexivity.
  - by eexists.
  - by eexists.
Defined.

(** X13: the HTTP send route changes the state only with a 201 or a 500
    answer.  It answers 400 exactly when the conversation identifier, the
    text or the receiver is missing or falsy, before looking anything up,
    and every 400, 403 or 404 answer leaves the state untouched. *)
Theorem http_send_refusals_change_nothing
    (receiver_is_relation : bool) (uid : string)
    (conversationId_ content_ receiverId_ : option json)
    (e1 e2 e3 : StoreCall) (st : State) :
  let r := post_message receiver_is_relation uid conversationId_ content_
             receiverId_ e1 e2 e3 st in
  (r.1 = Failure 400 "Missing required fields"
   ↔ truthy conversationId_ && truthy content_ && truthy receiverId_ = false)
  ∧ (∀ code msg, r.1 = Failure code msg → code ≠ 500 →
       r.2 = st ∧ (code = 400 ∨ code = 403 ∨ code = 404)).
Proof.
  intros r. subst r. unfold post_message.
  destruct (truthy conversationId_), (truthy content_), (truthy receiverId_);
    simpl; try (split; [done|]; intros code msg [= <- <-] _; auto).
  destruct (conversation_findUnique e1 conversationId_ (db st)) as [[c|]|];
    simpl.
  - destruct (not_participant uid c); simpl.
    + split; [done|]. intros code msg [= <- <-] _. auto.
    + destruct (message_create _ _ _ _ _ _ _) as [[saved d1]|]; simpl.
      * destruct (conversation_update _ _ _); simpl;
          (split; [done|]); [done|]. by intros code msg [= <- <-].
      * split; [done|]. by intros code msg [= <- <-].
  - split; [done|]. intros code msg [= <- <-] _. auto.
  - split; [done|]. by intros code msg [= <- <-].
Qed.

Lemma http_send_refusals_change_nothing_witness :
  post_message true "u1" (Some (JString "c1")) (Some (JString ""))
    (Some (JString "u2")) (call 9 "") (call 10 "m1") (call 11 "") chat_state
  = (Failure 400 "Missing required fields", chat_state).
Proof.
  destruct (http_send_refusals_change_nothing true "u1" (Some (JString "c1"))
              (Some (JString "")) (Some (JString "u2"))
              (call 9 "") (call 10 "m1") (call 11 "") chat_state) as [H1 H2].
  apply injective_projections.
  - apply H1. reflexivity.
  - apply (H2 400 "Missing required fields"); [reflexivity | lia].
Defined.

(** X14: the HTTP send route is not atomic.  When the message was created
    and the store then rejects the timestamp update, the route answers 500
    although the message row stays in the store, the last of the message
    table, with the conversation's timestamp unchanged. *)
Theorem http_send_can_fail_after_persisting
    (receiver_is_relation : bool) (uid : string)
    (conversationId_ content_ receiverId_ : option json)
    (e1 e2 e3 : StoreCall) (st : State) (c : Conversation)
    (saved : MessageWithSender) (d1 : DB) :
  truthy conversationId_ = true → truthy content_ = true →
  truthy receiverId_ = true →
  conversation_findUnique e1 conversationId_ (db st) = Resolved (Some c) →
  participates uid c →
  message_create receiver_is_relation e2 content_ (Some uid) receiverId_
    conversationId_ (db st) = Resolved (saved, d1) →
  unreachable e3 = true →
  let r := post_message receiver_is_relation uid conversationId_ content_
             receiverId_ e1 e2 e3 st in
  r.1 = Failure 500 "Failed to send message"
  ∧ messages (db r.2) = messages (db st) ++ [row saved]
  ∧ conversations (db r.2) = conversations (db st).
Proof.
  intros H1 H2 H3 Hc Hp Hm He3 r. subst r. unfold post_message.
  rewrite H1, H2, H3, Hc. simpl.
  apply not_participant_false in Hp. rewrite Hp, Hm.
  unfold conversation_update. rewrite He3. simpl.
  destruct (message_create_resolved _ _ _ _ _ _ _ _ _ Hm)
    as (? & ? & ? & ? & _ & _ & _ & _ & _ & _ & _ & Hcs & Hmsgs & _).
  done.
Qed.

Lemma http_send_can_fail_after_persisting_witness :
  let r := post_message true "u1" (prop "conversationId" hello)
             (prop "content" hello) (prop "receiverId" hello)
             (call 9 "") (call 10 "m1") outage chat_state in
  r.1 = Failure 500 "Failed to send message"
  ∧ messages (db r.2) = [hi_from "u1"].
Proof.
  intros r.
  destruct (http_send_can_fail_after_persisting true "u1"
              (prop "conversationId" hello) (prop "content" hello)
              (prop "receiverId" hello) (call 9 "") (call 10 "m1") outage
              chat_state conversation_c1 (saved_hi_from "u1")
              {| users := users chat_db; conversations := conversations chat_db;
                 messages := [hi_from "u1"] |})
    as (H1 & H2 & _); try reflexivity.
  - left. reflexivity.
  - split; [exact H1 | exact H2].
Defined.

(** ** The two ways to send *)

(** X15: for a participant and a frame whose three fields are truthy, the
    live connection and the HTTP route leave the same store, whatever the
    store answers to the insertion and to the timestamp update. *)
Theorem http_and_live_send_store_the_same
    (receiver_is_relation : bool) (ws : Handle) (uid : string) (m : json)
    (e0 e1 e2 : StoreCall) (st : State) (c : Conversation) :
  Active ws uid st →
  is_chat_message (prop "type" m) = true →
  truthy (prop "conversationId" m) = true →
  truthy (prop "content" m) = true →
  truthy (prop "receiverId" m) = true →
  conversation_findUnique e0 (prop "conversationId" m) (db st)
    = Resolved (Some c) →
  participates uid c →
  db (post_message receiver_is_relation uid (prop "conversationId" m)
        (prop "content" m) (prop "receiverId" m) e0 e1 e2 st).2
  = db (process receiver_is_relation ws (Some m) e1 e2 st).
Proof.
  intros Ha Hm H1 H2 H3 Hc Hp. unfold post_message.
  rewrite H1, H2, H3, Hc. simpl.
  apply not_participant_false in Hp. rewrite Hp.
  destruct (message_create receiver_is_relation e1 (prop "content" m) (Some uid)
              (prop "receiverId" m) (prop "conversationId" m) (db st))
    as [[saved d1]|err] eqn:Hcreate.
  2: { by erewrite process_rejected. }
  destruct (unreachable e2) eqn:He2.
  - erewrite process_update_rejected by done.
    unfold conversation_update. by rewrite He2.
  - erewrite process_relayed_db by done.
    destruct (message_create_resolved _ _ _ _ _ _ _ _ _ Hcreate)
      as (txt & s & rid & cid & _ & _ & _ & _ & Hrow & _ & Hu & Hcs & Hmsgs
          & _ & Hconv & _).
    rewrite conversation_update_resolved; [|done|].
    + simpl. by rewrite Hu, Hcs, Hmsgs.
    + unfold find_conversation in *. by rewrite Hcs, Hrow.
Qed.

Lemma http_and_live_send_store_the_same_witness :
  db (post_message true "u1" (prop "conversationId" to_outsider)
        (prop "content" to_outsider) (prop "receiverId" to_outsider)
        (call 9 "") (call 10 "m1") (call 11 "") chat_state).2
  = db (process true 1%nat (Some to_outsider) (call 10 "m1") (call 11 "")
          chat_state).
Proof.
  apply (http_and_live_send_store_the_same true 1%nat "u1" to_outsider
           (call 9 "") (call 10 "m1") (call 11 "") chat_state conversation_c1);
    try reflexivity.
  - exact chat_state_Active_u1.
  - left. reflexivity.
Defined.

(** X16: an empty text is refused by the HTTP route, which answers 400
    and changes nothing, but not by the live connection: there the frame
    goes to the store as it is, and when the store accepts it a message with
    empty content is persisted. *)
Theorem empty_text_passes_only_over_the_live_connection
    (receiver_is_relation : bool) (ws : Handle) (uid : string) (m : json)
    (e0 e1 e2 : StoreCall) (st : State) (saved : MessageWithSender) (d1 : DB) :
  Active ws uid st →
  is_chat_message (prop "type" m) = true →
  prop "content" m = Some (JString "") →
  message_create receiver_is_relation e1 (prop "content" m) (Some uid)
    (prop "receiverId" m) (prop "conversationId" m) (db st)
    = Resolved (saved, d1) →
  post_message receiver_is_relation uid (prop "conversationId" m)
    (prop "content" m) (prop "receiverId" m) e0 e1 e2 st
  = (Failure 400 "Missing required fields", st)
  ∧ content (row saved) = ""
  ∧ messages (db (process receiver_is_relation ws (Some m) e1 e2 st))
    = messages (db st) ++ [row saved].
Proof.
  intros Ha Hm Htxt Hc.
  destruct (message_create_resolved _ _ _ _ _ _ _ _ _ Hc)
    as (txt & s & rid & cid & Ht & _ & _ & _ & Hrow & _ & _ & _ & Hmsgs & _).
  split_and!.
  - unfold post_message. rewrite Htxt. simpl. by rewrite orb_true_r.
  - rewrite Htxt in Ht. simpl in Ht. simplify_eq. by rewrite Hrow.
  - unfold process. rewrite on_message_chat by done. cbn [resume].
    rewrite (Active_userId _ _ _ Ha), Hc.
    by rewrite resume_update_messages.
Qed.

Lemma empty_text_passes_only_over_the_live_connection_witness :
  (content <$> messages (db (process true 1%nat (Some empty_text) (call 10 "m1")
                               (call 11 "") chat_state))) = [""]
  ∧ (post_message true "u1" (prop "conversationId" empty_text)
       (prop "content" empty_text) (prop "receiverId" empty_text)
       (call 9 "") (call 10 "m1") (call 11 "") chat_state).1
    = Failure 400 "Missing required fields".
Proof.
  destruct (empty_text_passes_only_over_the_live_connection true 1%nat "u1"
              empty_text (call 9 "") (call 10 "m1") (call 11 "") chat_state
              {| row := {| m_id := "m1"; content := ""; senderId := "u1";
                           receiverId := "u2"; conversationId := "c1";
                           createdAt := 10 |};
                 sender := Some (user "u1") |}
              {| users := users chat_db; conversations := conversations chat_db;
                 messages := [{| m_id := "m1"; content := ""; senderId := "u1";
                                 receiverId := "u2"; conversationId := "c1";
                                 createdAt := 10 |}] |})
    as (H1 & _ & H3); try reflexivity.
  - exact chat_state_Active_u1.
  - split; [by rewrite H3 | by rewrite H1].
Defined.

(** ** Get-or-create conversation, further *)

(** X17: the get-or-create route changes the state only by appending the
    one conversation it answers with.  It answers 400 and changes nothing
    when [otherUserId] is missing or falsy; any failure leaves the state
    untouched; and a 200 answer carries a conversation of the table whose
    two users are the requester and the named peer, in sorted order, either
    already there, the state being unchanged, or appended last. *)
Theorem get_or_create_answers_the_requesters_conversation
    (uid : string) (otherUserId : option json) (e1 e2 : StoreCall) (st : State) :
  let r := post_conversation uid otherUserId e1 e2 st in
  (truthy otherUserId = false → r = (Failure 400 "Other user ID is required", st))
  ∧ (∀ code msg, r.1 = Failure code msg → r.2 = st)
  ∧ (∀ c, r.1 = Json 200 c →
       ∃ other, otherUserId = Some (JString other)
                ∧ pair_of c = sort_pair uid other
                ∧ participates uid c ∧ participates other c
                ∧ c ∈ conversations (db r.2)
                ∧ (r.2 = st
                   ∨ (clients r.2 = clients st ∧ sockets r.2 = sockets st
                      ∧ users (db r.2) = users (db st)
                      ∧ messages (db r.2) = messages (db st)
                      ∧ conversations (db r.2) = conversations (db st) ++ [c]))).
Proof.
  intros r. subst r. unfold post_conversation.
  destruct (truthy otherUserId) eqn:Ht; simpl.
  2: { split_and!; [done|by intros ?? [= <- <-]|done]. }
  destruct otherUserId as [[| | |other| |]|]; simpl; try done.
  destruct (sort_pair uid other) as [x y] eqn:Hs.
  assert (∀ c, pair_of c = (x, y) → participates uid c ∧ participates other c)
    as Hboth.
  { intros c Hc. unfold pair_of in Hc. simplify_eq. unfold participates.
    destruct (sort_pair_members _ _ _ _ Hs) as [[-> ->]|[-> ->]]; auto. }
  destruct (conversation_findPair e1 x y (db st)) as [[c|]|] eqn:Hf; simpl.
  - split_and!; try done. intros c0 [= <-].
    unfold conversation_findPair in Hf. destruct (unreachable e1); [done|].
    simplify_eq. apply find_pair_pair_of in Hf as [Hpair Hin].
    exists other. destruct (Hboth c Hpair). split_and!; auto; congruence.
  - destruct (conversation_create e2 x y (db st)) as [[c d']|] eqn:Hc; simpl.
    + split_and!; try done. intros c0 [= <-].
      apply conversation_create_resolved in Hc as (H1 & H2 & _ & ->).
      assert (pair_of c = (x, y)) as Hpair by (unfold pair_of; congruence).
      exists other. destruct (Hboth c Hpair). split_and!; auto.
      * congruence.
      * simpl. apply elem_of_app. right. by left.
      * right. by split_and!.
    + split_and!; try done.
  - split_and!; try done.
Qed.

Lemma get_or_create_answers_the_requesters_conversation_witness :
  post_conversation "u1" (Some (JString "")) (call 1 "") (call 2 "c2") chat_state
  = (Failure 400 "Other user ID is required", chat_state)
  ∧ ∃ c, (post_conversation "u3" (Some (JString "u2")) (call 1 "") (call 2 "c2")
            chat_state).1 = Json 200 c
         ∧ pair_of c = ("u2", "u3").
Proof.
  destruct (get_or_create_answers_the_requesters_conversation "u1"
              (Some (JString "")) (call 1 "") (call 2 "c2") chat_state)
    as (H1 & _).
  destruct (get_or_create_answers_the_requesters_conversation "u3"
              (Some (JString "u2")) (call 1 "") (call 2 "c2") chat_state)
    as (_ & _ & H3).
  split; [apply H1; reflexivity|].
  eexists. split; [reflexivity|].
  destruct (H3 _ eq_refl) as (other & Ho & Hp & _).
  injection Ho as <-. exact Hp.
Defined.

(** ** Registering and unregistering *)

(** X18: a handshake with a token that verifies registers the new
    connection under the verified user and under nobody else: that user's
    lookup returns the new handle, the connection is Active, every other
    user's lookup, every other socket and the store are as before, and
    nothing has been written on the new channel. *)
Theorem accepted_handshake_registers_only_its_user
    (jwt_verify : string → option string) (ws : Handle) (t uid : string)
    (st : State) :
  t ≠ "" → jwt_verify t = Some uid →
  let st' := on_connection jwt_verify ws (Some t) st in
  lookup uid st' = Some ws
  ∧ Active ws uid st'
  ∧ outbox_of ws st' = []
  ∧ (∀ u, u ≠ uid → lookup u st' = lookup u st)
  ∧ (∀ w, w ≠ ws → sockets st' !! w = sockets st !! w)
  ∧ db st' = db st.
Proof.
  intros Ht Hv st'. subst st'. rewrite (on_connection_accept _ _ _ uid) by done.
  unfold lookup, outbox_of. simpl. split_and!.
  - apply lookup_insert_eq.
  - exists (authenticated uid accepted). simpl. by rewrite lookup_insert_eq.
  - by rewrite lookup_insert_eq.
  - intros u Hu. by rewrite lookup_insert_ne.
  - intros w Hw. by rewrite lookup_insert_ne.
  - done.
Qed.

Lemma accepted_handshake_registers_only_its_user_witness :
  lookup "u" (on_connection verify_u 7%nat (Some "token-u") chat_state) = Some 7%nat
  ∧ lookup "u1" (on_connection verify_u 7%nat (Some "token-u") chat_state)
    = Some 1%nat.
Proof.
  destruct (accepted_handshake_registers_only_its_user verify_u 7%nat "token-u"
              "u" chat_state) as (H1 & _ & _ & H4 & _).
  - discriminate.
  - reflexivity.
  - split; [exact H1|]. rewrite H4; [reflexivity | discriminate].
Defined.

(** X19: connecting and then closing is a round trip on the registry.
    When the user had no registered connection, a handshake that verifies
    followed by the close event of that connection leaves the registry and
    the store exactly as they were; every other socket is untouched and the
    closed one no longer hears frames. *)
Theorem connect_then_close_restores_the_registry
    (jwt_verify : string → option string) (ws : Handle) (t uid : string)
    (st : State) :
  t ≠ "" → uid ≠ "" → jwt_verify t = Some uid →
  lookup uid st = None →
  let st' := on_close ws (on_connection jwt_verify ws (Some t) st) in
  clients st' = clients st
  ∧ db st' = db st
  ∧ (∀ w, w ≠ ws → sockets st' !! w = sockets st !! w)
  ∧ hears ws st' = false.
Proof.
  intros Ht Hu Hv Hnone st'. subst st'.
  rewrite (on_connection_accept _ _ _ uid) by done.
  erewrite (on_close_registered ws (authenticated uid accepted) uid);
    [| simpl; apply lookup_insert_eq | done..].
  simpl. split_and!.
  - by apply delete_insert_id.
  - done.
  - intros w Hw. by rewrite !lookup_insert_ne.
  - unfold hears. simpl. by rewrite lookup_insert_eq.
Qed.

Lemma connect_then_close_restores_the_registry_witness :
  clients (on_close 7%nat (on_connection verify_u 7%nat (Some "token-u") chat_state))
  = clients chat_state.
Proof.
  apply (connect_then_close_restores_the_registry verify_u 7%nat "token-u" "u"
           chat_state); [discriminate | discriminate | reflexivity | reflexivity].
Defined.

(** ** Frames the store refuses *)



(** ** Favourites *)

Lemma filter_all {A} (P : A → Prop) `{∀ x, Decision (P x)} (l : list A) :
  Forall P l → filter P l = l.
Proof.
  induction 1 as [|x l Hx _ IH]; [done|].
  by rewrite filter_cons_True, IH.
Qed.

Lemma find_favorite_none uid adId s :
  find_favorite uid adId s = None →
  Forall (λ f, ¬ is_favorite_of uid adId f) (favorites s).
Proof.
  unfold find_favorite. intros Hn. apply Forall_forall. intros f Hf Hfav.
  apply list_elem_of_In in Hf.
  pose proof (find_none _ _ Hn f Hf) as H. simpl in H.
  by rewrite bool_decide_eq_true_2 in H.
Qed.

Lemma favorite_create_resolved rr e uid adId s f s' :
  favorite_create rr e uid adId s = Resolved (f, s') →
  f = {| f_id := new_id e; f_userId := uid; f_adId := adId;
         f_createdAt := now e |}
  ∧ find_favorite uid adId s = None
  ∧ s' = {| accounts := accounts s; ads := ads s;
            favorites := favorites s ++ [f] |}.
Proof.
  unfold favorite_create. intros H.
  repeat case_match; simplify_eq. done.
Qed.

Lemma favorite_create_accepts rr e uid adId s :
  unreachable e = false →
  is_Some (find_ad adId s) → is_Some (find_account uid s) →
  find_favorite uid adId s = None →
  find (λ f, bool_decide (f_id f = new_id e)) (favorites s) = None →
  let f := {| f_id := new_id e; f_userId := uid; f_adId := adId;
              f_createdAt := now e |} in
  favorite_create rr e uid adId s
  = Resolved (f, {| accounts := accounts s; ads := ads s;
                    favorites := favorites s ++ [f] |}).
Proof.
  intros He Ha Hu Hf Hid f. unfold favorite_create.
  rewrite He, Hf, Hid. rewrite !bool_decide_eq_true_2 by done.
  by rewrite orb_true_r.
Qed.

(** X21: adding a favourite and asking for it is a round trip.  For an ad
    that exists and is not deleted, a known user who has not favourited it
    yet, the store reachable and a fresh identifier, the add route answers
    201 and appends the favourite; before, the check route said false, now
    it says true; and adding the same ad again answers 400 and changes
    nothing. *)
Theorem added_favorite_is_reported_and_not_added_twice
    (favorite_user_is_relation : bool) (uid adId : string)
    (e1 e2 e3 e4 e5 e6 e7 : StoreCall) (s : Shop) (a : Ad) :
  find_ad adId s = Some a → deleted a = false →
  is_Some (find_account uid s) →
  find_favorite uid adId s = None →
  find (λ f, bool_decide (f_id f = new_id e3)) (favorites s) = None →
  unreachable e1 = false → unreachable e2 = false → unreachable e3 = false →
  unreachable e4 = false → unreachable e5 = false → unreachable e6 = false →
  let f := {| f_id := new_id e3; f_userId := uid; f_adId := adId;
              f_createdAt := now e3 |} in
  let s' := {| accounts := accounts s; ads := ads s;
               favorites := favorites s ++ [f] |} in
  check_favorite uid adId e4 s = (Json 200 false, s)
  ∧ add_favorite favorite_user_is_relation uid adId e1 e2 e3 s = (Json 201 f, s')
  ∧ check_favorite uid adId e4 s' = (Json 200 true, s')
  ∧ add_favorite favorite_user_is_relation uid adId e5 e6 e7 s'
    = (Failure 400 "Already in favorites", s').
Proof.
  intros Ha Hd Hu Hf Hid He1 He2 He3 He4 He5 He6 f s'.
  assert (find_favorite uid adId s' = Some f) as Hf'.
  { unfold find_favorite in *. simpl. apply find_snoc; [done|].
    by apply bool_decide_eq_true_2. }
  assert (find_ad adId s' = Some a) as Ha' by done.
  split_and!.
  - unfold check_favorite, favorite_findUnique. by rewrite He4, Hf.
  - unfold add_favorite, ad_findUnique, favorite_findUnique.
    rewrite He1, Ha, Hd, He2, Hf.
    by rewrite favorite_create_accepts.
  - unfold check_favorite, favorite_findUnique. by rewrite He4, Hf'.
  - unfold add_favorite, ad_findUnique, favorite_findUnique.
    by rewrite He5, Ha', Hd, He6, Hf'.
Qed.

Lemma added_favorite_is_reported_and_not_added_twice_witness :
  (add_favorite true "u1" "a1" (call 1 "") (call 2 "") (call 3 "f2") shop).1
  = Json 201 {| f_id := "f2"; f_userId := "u1"; f_adId := "a1"; f_createdAt := 3 |}
  ∧ (check_favorite "u1" "a1" (call 4 "") shop).1 = Json 200 false.
Proof.
  destruct (added_favorite_is_reported_and_not_added_twice true "u1" "a1"
              (call 1 "") (call 2 "") (call 3 "f2") (call 4 "") (call 5 "")
              (call 6 "") (call 7 "") shop
              {| a_id := "a1"; a_userId := "u1"; a_status := "active";
                 a_createdAt := 1 |})
    as (H1 & H2 & _); try reflexivity.
  - by eexists.
  - split; [by rewrite H2 | by rewrite H1].
Defined.

(** X22: adding a favourite and removing it is a round trip on the store:
    under the conditions under which the add route answers 201, removing
    the favourite afterwards answers 200 and gives back the store as it was
    before the addition; removing it once more, or removing what was never
    a favourite, answers 500 and changes nothing. *)
Theorem removing_an_added_favorite_restores_the_store
    (favorite_user_is_relation : bool) (uid adId : string)
    (e1 e2 e3 e4 e5 : StoreCall) (s : Shop) (a : Ad) :
  find_ad adId s = Some a → deleted a = false →
  is_Some (find_account uid s) →
  find_favorite uid adId s = None →
  find (λ f, bool_decide (f_id f = new_id e3)) (favorites s) = None →
  unreachable e1 = false → unreachable e2 = false → unreachable e3 = false →
  unreachable e4 = false →
  let s' := (add_favorite favorite_user_is_relation uid adId e1 e2 e3 s).2 in
  remove_favorite uid adId e5 s = (Failure 500 "Failed to remove from favorites", s)
  ∧ remove_favorite uid adId e4 s' = (Json 200 "Removed from favorites", s)
  ∧ s' ≠ s.
Proof.
  intros Ha Hd Hu Hf Hid He1 He2 He3 He4 s'.
  assert (s' = {| accounts := accounts s; ads := ads s;
                  favorites := favorites s
                    ++ [{| f_id := new_id e3; f_userId := uid; f_adId := adId;
                           f_createdAt := now e3 |}] |}) as ->.
  { subst s'. unfold add_favorite, ad_findUnique, favorite_findUnique.
    rewrite He1, Ha, Hd, He2, Hf. by rewrite favorite_create_accepts. }
  split_and!.
  - unfold remove_favorite, favorite_delete. rewrite Hf. by destruct (unreachable e5).
  - unfold remove_favorite, favorite_delete. rewrite He4.
    unfold find_favorite in *. simpl.
    rewrite (find_snoc _ _ _ Hf) by by apply bool_decide_eq_true_2.
    rewrite filter_app, filter_all by by apply find_favorite_none.
    rewrite filter_cons_False by (intros H; by apply H).
    rewrite filter_nil, app_nil_r. by destruct s.
  - intros Heq. apply (f_equal (λ x, length (favorites x))) in Heq.
    simpl in Heq. rewrite length_app in Heq. simpl in Heq. lia.
Qed.

Lemma removing_an_added_favorite_restores_the_store_witness :
  remove_favorite "u1" "a1" (call 4 "")
    (add_favorite true "u1" "a1" (call 1 "") (call 2 "") (call 3 "f2") shop).2
  = (Json 200 "Removed from favorites", shop).
Proof.
  apply (removing_an_added_favorite_restores_the_store true "u1" "a1"
           (call 1 "") (call 2 "") (call 3 "f2") (call 4 "") (call 5 "") shop
           {| a_id := "a1"; a_userId := "u1"; a_status := "active";
              a_createdAt := 1 |}); try reflexivity.
  by eexists.
Defined.

(** X23: the favourites routes keep at most one favourite per user and ad:
    whatever the requests, if the table had no two rows for the same user
    and ad before an add or a remove, it has none after. *)
Theorem favorites_stay_unique
    (favorite_user_is_relation : bool) (uid adId : string)
    (e1 e2 e3 : StoreCall) (s : Shop) :
  OneFavoritePerAd s →
  OneFavoritePerAd (add_favorite favorite_user_is_relation uid adId e1 e2 e3 s).2
  ∧ OneFavoritePerAd (remove_favorite uid adId e1 s).2.
Proof.
  intros Hs. split.
  - unfold add_favorite.
    destruct (ad_findUnique e1 adId s) as [ad|]; [|done].
    destruct (match ad with None => true | Some a => deleted a end); [done|].
    destruct (favorite_findUnique e2 uid adId s) as [[?|]|]; try done.
    destruct (favorite_create _ e3 uid adId s) as [[f s']|] eqn:Hc; [|done].
    apply favorite_create_resolved in Hc as (-> & Hf & ->).
    unfold OneFavoritePerAd in *. simpl. rewrite fmap_app.
    apply NoDup_app. split_and!; [done| |apply NoDup_singleton].
    intros p Hp ->%list_elem_of_singleton.
    apply list_elem_of_fmap in Hp as (f & Hpair & Hin). simpl in Hpair.
    apply find_favorite_none in Hf. rewrite Forall_forall in Hf.
    apply (Hf f Hin). unfold is_favorite_of. by simplify_eq.
  - unfold remove_favorite, favorite_delete.
    destruct (unreachable e1); [done|].
    destruct (find_favorite uid adId s); [|done]. simpl.
    unfold OneFavoritePerAd in *. simpl.
    eapply NoDup_fmap_2_strong; [|apply NoDup_filter; by eapply NoDup_fmap_1].
    intros x y Hx Hy Heq.
    apply list_elem_of_filter in Hx as [_ Hx], Hy as [_ Hy].
    apply list_elem_of_lookup in Hx as [i Hi], Hy as [j Hj].
    assert (i = j) as ->; [|congruence].
    eapply NoDup_lookup; [exact Hs| |].
    + rewrite list_lookup_fmap, Hi. reflexivity.
    + rewrite list_lookup_fmap, Hj. simpl. by rewrite Heq.
Qed.

Lemma favorites_stay_unique_witness :
  OneFavoritePerAd
    (add_favorite true "u2" "a1" (call 1 "") (call 2 "") (call 3 "f2") shop).2.
Proof.
  apply (favorites_stay_unique true "u2" "a1" (call 1 "") (call 2 "")
           (call 3 "f2") shop).
  unfold OneFavoritePerAd. simpl. apply NoDup_singleton.
Defined.

(** ** Deleting an ad *)

Lemma find_ad_set_status x id status l :
  find (λ a, bool_decide (a_id a = x)) (set_status id status <$> l)
  = set_status id status <$> find (λ a, bool_decide (a_id a = x)) l.
Proof.
  induction l as [|a l IH]; [done|]. simpl.
  assert (a_id (set_status id status a) = a_id a) as ->.
  { unfold set_status. by case_decide. }
  by case_bool_decide.
Qed.

Lemma find_ad_id id s a : find_ad id s = Some a → a_id a = id ∧ a ∈ ads s.
Proof.
  unfold find_ad. intros [Hin H]%find_some.
  apply bool_decide_eq_true in H. split; [done|]. by apply list_elem_of_In.
Qed.

Lemma set_status_deleted id a :
  a_id a = id → deleted (set_status id "deleted" a) = true.
Proof. intros H. unfold set_status. by rewrite decide_True. Qed.

Lemma a_id_set_status id status a : a_id (set_status id status a) = a_id a.
Proof. unfold set_status. by case_decide. Qed.

Lemma delete_ad_ok uid id e1 e2 e3 s msg :
  (delete_ad uid id e1 e2 e3 s).1 = Json 200 msg →
  ∃ a, find_ad id s = Some a
       ∧ (a_userId a = uid
          ∨ ∃ u, find_account uid s = Some u ∧ acc_isAdmin u = true)
       ∧ (delete_ad uid id e1 e2 e3 s).2
         = {| accounts := accounts s; ads := set_status id "deleted" <$> ads s;
              favorites := favorites s |}.
Proof.
  unfold delete_ad, ad_findUnique, account_findUnique, ad_update_status.
  destruct (unreachable e1); [done|].
  destruct (find_ad id s) as [a|] eqn:Ha; [|done].
  destruct (unreachable e2); [done|].
  destruct (negb (bool_decide (a_userId a = uid))
            && negb (from_option acc_isAdmin false (find_account uid s)))
    eqn:Hauth; [done|].
  destruct (unreachable e3); [done|]. simpl. intros _.
  exists a. split_and!; [done| |done].
  apply andb_false_iff in Hauth as [H|H]; apply negb_false_iff in H.
  - left. by apply bool_decide_eq_true in H.
  - right. destruct (find_account uid s) as [u|]; [|done]. by exists u.
Qed.

(** X24: only its owner or an administrator deletes an ad, and the
    deletion is a change of status.  A 200 answer means the ad existed and
    the requester owns it or is an administrator, and the store then holds
    the same accounts, the same favourites and the same ads, those with
    that identifier marked deleted; any failure answer leaves the store
    unchanged; and the owner, with the store reachable, does get 200, also
    for an ad that is already deleted. *)
Theorem ad_is_deleted_by_its_owner_or_an_admin
    (uid id : string) (e1 e2 e3 : StoreCall) (s : Shop) :
  let r := delete_ad uid id e1 e2 e3 s in
  (∀ msg, r.1 = Json 200 msg →
     ∃ a, find_ad id s = Some a
          ∧ (a_userId a = uid
             ∨ ∃ u, find_account uid s = Some u ∧ acc_isAdmin u = true)
          ∧ accounts r.2 = accounts s ∧ favorites r.2 = favorites s
          ∧ ads r.2 = set_status id "deleted" <$> ads s
          ∧ a_id <$> ads r.2 = a_id <$> ads s)
  ∧ (∀ code msg, r.1 = Failure code msg → r.2 = s)
  ∧ (∀ a, find_ad id s = Some a → a_userId a = uid →
          unreachable e1 = false → unreachable e2 = false →
          unreachable e3 = false →
          r.1 = Json 200 "Ad deleted successfully").
Proof.
  intros r. split_and!.
  - intros msg Hr. destruct (delete_ad_ok _ _ _ _ _ _ _ Hr) as (a & Ha & Hauth & Hs).
    exists a. subst r. rewrite Hs. simpl. split_and!; try done.
    rewrite <- list_fmap_compose. apply list_fmap_ext.
    intros i b _. simpl. apply a_id_set_status.
  - subst r. unfold delete_ad.
    repeat case_match; simpl; try done.
  - intros a Ha Hown He1 He2 He3. subst r.
    unfold delete_ad, ad_findUnique, account_findUnique, ad_update_status.
    rewrite He1, Ha, He2, He3. by rewrite bool_decide_eq_true_2.
Qed.

Lemma ad_is_deleted_by_its_owner_or_an_admin_witness :
  (delete_ad "u1" "a1" (call 1 "") (call 2 "") (call 3 "") shop).1
  = Json 200 "Ad deleted successfully"
  ∧ delete_ad "u2" "a1" (call 1 "") (call 2 "") (call 3 "") shop
    = (Failure 403 "Unauthorized", shop).
Proof.
  destruct (ad_is_deleted_by_its_owner_or_an_admin "u1" "a1" (call 1 "")
              (call 2 "") (call 3 "") shop) as (_ & _ & H3).
  destruct (ad_is_deleted_by_its_owner_or_an_admin "u2" "a1" (call 1 "")
              (call 2 "") (call 3 "") shop) as (_ & H2 & _).
  split.
  - apply (H3 {| a_id := "a1"; a_userId := "u1"; a_status := "active";
                 a_createdAt := 1 |}); reflexivity.
  - apply injective_projections; [reflexivity|].
    apply (H2 403 "Unauthorized"). reflexivity.
Defined.

Lemma valid_ads_elem l r a :
  valid_ads l = Some r → a ∈ r →
  deleted a = false ∧ ∃ f, (f, Some a) ∈ l.
Proof.
  revert r. induction l as [|[f [ad|]] l IH]; intros r Hv Ha; simpl in Hv.
  - simplify_eq. by apply elem_of_nil in Ha.
  - destruct (valid_ads l) as [rest|]; [|done]. simpl in Hv. simplify_eq.
    destruct (deleted ad) eqn:Hd.
    + destruct (IH rest eq_refl Ha) as [? [g Hg]].
      split; [done|]. exists g. by right.
    + apply elem_of_cons in Ha as [->|Ha].
      * split; [done|]. exists f. by left.
      * destruct (IH rest eq_refl Ha) as [? [g Hg]].
        split; [done|]. exists g. by right.
  - done.
Qed.

(** X25: once an ad has been deleted through the ads route it is gone for
    every reader although its row and its favourites remain: the ad route
    answers 404 for it, it cannot be added to favourites (404), and it
    appears neither in anybody's favourites list nor in anybody's own ads;
    the check route, however, still reports it as a favourite of whoever
    had favourited it. *)
Theorem deleted_ad_is_hidden_but_still_a_favorite
    (favorite_user_is_relation : bool) (uid id : string)
    (e1 e2 e3 e : StoreCall) (s : Shop) (msg : string) :
  (delete_ad uid id e1 e2 e3 s).1 = Json 200 msg →
  unreachable e = false →
  let s' := (delete_ad uid id e1 e2 e3 s).2 in
  get_ad id e s' = (Failure 404 "Ad not found", s')
  ∧ (∀ u e' e'', add_favorite favorite_user_is_relation u id e e' e'' s'
                 = (Failure 404 "Ad not found", s'))
  ∧ (∀ u l a, (get_favorites u e s').1 = Json 200 l → a ∈ l → a_id a ≠ id)
  ∧ (∀ u l a, (my_ads u e s').1 = Json 200 l → a ∈ l → a_id a ≠ id)
  ∧ (∀ u, (check_favorite u id e s').1 = (check_favorite u id e s).1).
Proof.
  intros Hok He s'.
  destruct (delete_ad_ok _ _ _ _ _ _ _ Hok) as (a0 & Ha0 & _ & Hs).
  subst s'. rewrite Hs. clear Hs Hok.
  set (s' := {| accounts := accounts s; ads := set_status id "deleted" <$> ads s;
                favorites := favorites s |}).
  assert (find_ad id s' = Some (set_status id "deleted" a0)) as Hfind.
  { unfold find_ad in *. simpl. by rewrite find_ad_set_status, Ha0. }
  assert (deleted (set_status id "deleted" a0) = true) as Hdel.
  { apply set_status_deleted. by apply find_ad_id in Ha0 as [? _]. }
  assert (∀ a, a ∈ ads s' → deleted a = false → a_id a ≠ id) as Hhidden.
  { intros a Ha Hd Hid. simpl in Ha.
    apply list_elem_of_fmap in Ha as (b & -> & _).
    rewrite a_id_set_status in Hid.
    by rewrite set_status_deleted in Hd. }
  split_and!.
  - unfold get_ad, ad_findUnique. by rewrite He, Hfind, Hdel.
  - intros u e' e''. unfold add_favorite, ad_findUnique.
    by rewrite He, Hfind, Hdel.
  - intros u l a Hl Ha. unfold get_favorites, favorite_findMany in Hl.
    rewrite He in Hl.
    destruct (valid_ads _) as [r|] eqn:Hv; [|done]. simpl in Hl. simplify_eq.
    destruct (valid_ads_elem _ _ _ Hv Ha) as [Hd [f Hf]].
    apply list_elem_of_fmap in Hf as (g & [= -> Hg] & _).
    apply Hhidden; [|done].
    symmetry in Hg. by apply find_ad_id in Hg as [_ ?].
  - intros u l a Hl Ha. unfold my_ads, ad_findMany_mine in Hl.
    rewrite He in Hl. simpl in Hl. simplify_eq.
    rewrite merge_sort_Permutation in Ha.
    apply list_elem_of_filter in Ha as [[_ Hd] Ha]. by apply Hhidden.
  - intros u. unfold check_favorite, favorite_findUnique. by rewrite He.
Qed.

Lemma deleted_ad_is_hidden_but_still_a_favorite_witness :
  let s' := (delete_ad "u1" "a1" (call 1 "") (call 2 "") (call 3 "") shop).2 in
  get_ad "a1" (call 4 "") s' = (Failure 404 "Ad not found", s')
  ∧ (get_favorites "u2" (call 4 "") shop).1
    = Json 200 [{| a_id := "a1"; a_userId := "u1"; a_status := "active";
                   a_createdAt := 1 |}]
  ∧ (get_favorites "u2" (call 4 "") s').1 = Json 200 []
  ∧ (check_favorite "u2" "a1" (call 4 "") s').1 = Json 200 true.
Proof.
  intros s'.
  destruct (deleted_ad_is_hidden_but_still_a_favorite true "u1" "a1"
              (call 1 "") (call 2 "") (call 3 "") (call 4 "") shop
              "Ad deleted successfully" eq_refl eq_refl)
    as (H1 & _ & _ & _ & H5).
  split_and!; [exact H1 | reflexivity | reflexivity |].
  etrans; [exact (H5 "u2") | reflexivity].
Defined.

#[local] Instance favorited_later_total : Total favorited_later.
Proof. intros a b. unfold favorited_later. lia. Qed.

Lemma valid_ads_shown s fs :
  Forall (λ f, is_Some (find_ad (f_adId f) s)) fs →
  valid_ads ((λ f, (f, find_ad (f_adId f) s)) <$> fs) = Some (omap (shown_ad s) fs).
Proof.
  induction 1 as [|f fs [a Ha] _ IH]; [done|].
  rewrite fmap_cons. cbn [valid_ads]. rewrite Ha, IH. cbn [mbind option_bind].
  change (omap (shown_ad s) (f :: fs))
    with (match shown_ad s f with
          | Some y => y :: omap (shown_ad s) fs
          | None => omap (shown_ad s) fs
          end).
  unfold shown_ad at 3. rewrite Ha. simpl. by destruct (deleted a).
Qed.

(** X26: the favourites list is the requester's own.  When every
    favourite of the requester has its ad in the store and the store is
    reachable, the route answers 200 with the ads of the requester's
    favourites, latest favourite first, leaving out the deleted ads and
    nothing else; no ad of somebody else's favourites is listed, and the
    store is not changed. *)
Theorem favorites_list_is_the_requesters_own
    (uid : string) (e : StoreCall) (s : Shop) :
  unreachable e = false →
  (∀ f, f ∈ favorites s → f_userId f = uid → is_Some (find_ad (f_adId f) s)) →
  ∃ fs,
    fs ≡ₚ filter (λ f, f_userId f = uid) (favorites s)
    ∧ Sorted favorited_later fs
    ∧ get_favorites uid e s = (Json 200 (omap (shown_ad s) fs), s)
    ∧ (∀ a, a ∈ omap (shown_ad s) fs ↔
            deleted a = false
            ∧ ∃ f, f ∈ favorites s ∧ f_userId f = uid
                   ∧ find_ad (f_adId f) s = Some a).
Proof.
  intros He Hads.
  set (own := filter (λ f, f_userId f = uid) (favorites s)).
  exists (merge_sort favorited_later own).
  pose proof (merge_sort_Permutation favorited_later own) as Hperm.
  split_and!.
  - done.
  - apply Sorted_merge_sort. apply _.
  - unfold get_favorites, favorite_findMany. rewrite He. fold own.
    rewrite valid_ads_shown; [done|].
    apply Forall_forall. intros f Hf. rewrite Hperm in Hf.
    apply list_elem_of_filter in Hf as [Hu Hf]. by apply Hads.
  - intros a. rewrite list_elem_of_omap. split.
    + intros (f & Hf & Hshown). rewrite Hperm in Hf.
      apply list_elem_of_filter in Hf as [Hu Hf].
      unfold shown_ad in Hshown.
      destruct (find_ad (f_adId f) s) as [b|] eqn:Hb; [|done]. simpl in Hshown.
      destruct (deleted b) eqn:Hd; [done|]. simplify_eq.
      split; [done|]. by exists f.
    + intros (Hd & f & Hf & Hu & Ha). exists f. split.
      * rewrite Hperm. by apply list_elem_of_filter.
      * unfold shown_ad. rewrite Ha. simpl. by rewrite Hd.
Qed.

Lemma favorites_list_is_the_requesters_own_witness :
  get_favorites "u2" (call 4 "") shop
  = (Json 200 [{| a_id := "a1"; a_userId := "u1"; a_status := "active";
                  a_createdAt := 1 |}], shop)
  ∧ get_favorites "u1" (call 4 "") shop = (Json 200 [], shop).
Proof.
  destruct (favorites_list_is_the_requesters_own "u2" (call 4 "") shop)
    as (fs & _ & _ & H & _).
  - reflexivity.
  - intros f Hf Hu. apply list_elem_of_singleton in Hf. subst f. by eexists.
  - split; reflexivity.
Defined.

(** ** Who reads and writes over HTTP *)

(** X27: over the HTTP routes only a participant reads or writes a
    conversation: a 200 answer of the message history route and a 201
    answer of the send route both mean that the conversation exists and
    that the requester is its user1 or its user2. *)
Theorem http_routes_serve_participants_only
    (receiver_is_relation : bool) (uid cid : string)
    (conversationId_ content_ receiverId_ : option json)
    (e1 e2 e3 : StoreCall) (st : State) :
  (∀ l, (get_messages uid cid e1 e2 st).1 = Json 200 l →
        ∃ c, find_conversation cid (db st) = Some c ∧ participates uid c)
  ∧ (∀ message,
       (post_message receiver_is_relation uid conversationId_ content_
          receiverId_ e1 e2 e3 st).1 = Json 201 message →
       ∃ c, find_conversation (conversationId (row message)) (db st) = Some c
            ∧ participates uid c).
Proof.
  split.
  - intros l. unfold get_messages, conversation_findUnique. simpl.
    destruct (unreachable e1); [done|].
    destruct (find_conversation cid (db st)) as [c|]; [|done].
    destruct (not_participant uid c) eqn:Hp; [done|].
    intros _. exists c. split; [done|]. by apply not_participant_false.
  - intros message. unfold post_message.
    destruct (_ || _); [done|].
    destruct (conversation_findUnique e1 conversationId_ (db st))
      as [[c|]|] eqn:Hfind; [|done..].
    destruct (not_participant uid c) eqn:Hp; [done|].
    destruct (message_create _ _ _ _ _ _ _) as [[saved d1]|] eqn:Hc; [|done].
    destruct (conversation_update _ _ _); [|done]. simpl. intros [= <-].
    exists c. split; [|by apply not_participant_false].
    destruct (message_create_resolved _ _ _ _ _ _ _ _ _ Hc)
      as (txt & s & rid & cid' & _ & _ & _ & Hcid & Hrow & _).
    unfold conversation_findUnique in Hfind. rewrite Hcid in Hfind.
    destruct (unreachable e1); [done|]. rewrite Hrow. simpl. congruence.
Qed.

Lemma http_routes_serve_participants_only_witness :
  ∃ c, find_conversation "c1" (db chat_state) = Some c ∧ participates "u2" c.
Proof.
  destruct (http_routes_serve_participants_only true "u2" "c1" None None None
              (call 1 "") (call 2 "") (call 3 "") chat_state) as [H _].
  apply (H []). reflexivity.
Defined.
